(** * WetSpec dashboard: smoothing, scale breaks and device lifecycle

    A shallow embedding of the dashboard script (the browser side of the
    WetSpec weather station) and of the Express server's three control
    routes, with the properties of the data pipeline and of the restart /
    shutdown handlers.

    Conventions of the embedding.
    - A JavaScript number is an IEEE 754 binary64 value: Rocq's primitive
      [float], whose operations are the ones the script's [+] and [/]
      perform.  There is one [nan].
    - A [Date] is its time value, an integer number of milliseconds.  Only
      valid dates are represented, and a date the script builds is taken
      to be within the range of valid dates; on such values the sums and
      comparisons the script makes in binary64 agree with the integer
      ones.
    - A JavaScript exception is a result [None] (or [Threw] in the page
      model); property access on [undefined] is the only one the data
      functions can raise.
    - Arrays are Rocq lists; [arr !! i] is [arr[i]], with [None] for
      [undefined]. *)

From Stdlib Require Import ZArith List Lia Floats Ascii String.
From stdpp Require Import base option list.

#[local] Set Warnings "-inexact-float".
#[local] Open Scope Z_scope.

(** ** JavaScript numbers *)

Module JS.

(** The Number nearest to an integer (round to nearest, ties to even). *)
Definition Number_of_Z (z : Z) : float :=
  SF2Prim (binary_normalize prec emax z 0 false).

Definition Number_of_nat (n : nat) : float := Number_of_Z (Z.of_nat n).

(** [Math.round(a / b)] for integers [a] and [0 < b]: the nearest
    integer, halves upwards. *)
Definition Math_round_div (a b : Z) : Z := (2 * a + b) / (2 * b).

(** StrWhiteSpaceChar, as far as one-byte characters go. *)
Definition isWhiteSpace (c : ascii) : bool :=
  let n := nat_of_ascii c in
  ((9 <=? n)%nat && (n <=? 13)%nat) || (n =? 32)%nat || (n =? 160)%nat.

Fixpoint trimStart (s : string) : string :=
  match s with
  | String c rest => if isWhiteSpace c then trimStart rest else s
  | EmptyString => s
  end.

(** The value of a digit of radix [R], if [c] is one. *)
Definition digitValue (R : Z) (c : ascii) : option Z :=
  let n := Z.of_nat (nat_of_ascii c) in
  let v := if (48 <=? n) && (n <=? 57) then Some (n - 48)
           else if (97 <=? n) && (n <=? 122) then Some (n - 87)
           else if (65 <=? n) && (n <=? 90) then Some (n - 55)
           else None in
  match v with
  | Some d => if d <? R then Some d else None
  | None => None
  end.

(** The longest run of radix-[R] digits at the front of [s]: how many
    there are, their value continuing from [acc], and what follows. *)
Fixpoint digits (R : Z) (s : string) (count : nat) (acc : Z)
    : nat * Z * string :=
  match s with
  | String c rest =>
      match digitValue R c with
      | Some d => digits R rest (S count) (acc * R + d)
      | None => (count, acc, s)
      end
  | EmptyString => (count, acc, s)
  end.

(** A leading sign: whether it is a minus, and what follows it. *)
Definition stripSign (s : string) : bool * string :=
  match s with
  | String c rest =>
      if Ascii.eqb c "-" then (true, rest)
      else if Ascii.eqb c "+" then (false, rest)
      else (false, s)
  | EmptyString => (false, s)
  end.

(** A leading [0x] or [0X]: the radix, and the digits to read. *)
Definition stripPrefix (s : string) : Z * string :=
  match s with
  | String c0 (String c1 rest) =>
      if Ascii.eqb c0 "0" && (Ascii.eqb c1 "x" || Ascii.eqb c1 "X")
      then (16, rest) else (10, s)
  | _ => (10, s)
  end.

Definition signed (negative : bool) (v : float) : float :=
  if negative then (- v)%float else v.

(** [parseInt(string)] with no radix argument. *)
Definition parseInt (s : string) : float :=
  let (negative, S1) := stripSign (trimStart s) in
  let (R, S2) := stripPrefix S1 in
  match digits R S2 0 0 with
  | (O, _, _) => nan
  | (_, mathInt, _) => signed negative (Number_of_Z mathInt)
  end.

(** The Number nearest to [m * 10^e10], for [0 <= m]. *)
Definition Number_of_decimal (m e10 : Z) : float :=
  if 0 <=? e10 then Number_of_Z (m * 10 ^ e10)
  else if m =? 0 then 0%float
  else
    let d := 10 ^ (- e10) in
    let s := Z.max 0 (Z.log2 d - Z.log2 m + 64) in
    let q := (m * 2 ^ s) / d in
    let sticky := if (m * 2 ^ s) mod d =? 0 then 0 else 1 in
    SF2Prim (binary_normalize prec emax (2 * q + sticky) (- (s + 1)) false).

(** The ExponentPart of a StrDecimalLiteral at the front of [s], if there
    is a complete one; otherwise exponent 0 and nothing consumed. *)
Definition exponentPart (s : string) : Z :=
  match s with
  | String c rest =>
      if (Ascii.eqb c "e" || Ascii.eqb c "E")%bool then
        let (negative, ds) := stripSign rest in
        match digits 10 ds 0 0 with
        | (O, _, _) => 0
        | (_, e, _) => if negative then - e else e
        end
      else 0
  | EmptyString => 0
  end.

Fixpoint startsWith (p s : string) : bool :=
  match p, s with
  | EmptyString, _ => true
  | String a p', String b s' => Ascii.eqb a b && startsWith p' s'
  | _, _ => false
  end.

(** [parseFloat(string)]: the longest prefix that is a StrDecimalLiteral. *)
Definition parseFloat (s : string) : float :=
  let (negative, S1) := stripSign (trimStart s) in
  if startsWith "Infinity" S1 then signed negative infinity
  else
    let '(ni, int, S2) := digits 10 S1 0 0 in
    let '(nf, mant, S3) :=
      match S2 with
      | String c rest =>
          if Ascii.eqb c "." then digits 10 rest 0 int else (O, int, S2)
      | EmptyString => (O, int, S2)
      end in
    match ni, nf with
    | O, O => nan
    | _, _ =>
        signed negative
          (Number_of_decimal mant (exponentPart S3 - Z.of_nat nf))
    end.

(** [arr[k]] for an integer [k]: [undefined] below 0 and past the end. *)
Definition get {A} (arr : list A) (k : Z) : option A :=
  if k <? 0 then None else arr !! Z.to_nat k.

(** [arr.forEach((elem, index) => ...)] for a callback that updates a
    state [St] and may throw. *)
Fixpoint forEach_from {A St} (f : St -> A -> nat -> option St)
    (i : nat) (arr : list A) (s : St) : option St :=
  match arr with
  | [] => Some s
  | a :: rest => s' ← f s a i; forEach_from f (S i) rest s'
  end.

Definition forEach {A St} (arr : list A)
    (f : St -> A -> nat -> option St) (s : St) : option St :=
  forEach_from f 0 arr s.

End JS.

(** ** The data functions of the dashboard script *)

Module Dashboard.
Import JS.

Record Date := newDate { getTime : Z }.

(** A data point [{x: Date, y: number}]. *)
Record Datum := mkDatum { x : Date; y : float }.

(** [const sampleInterval = (30 * 60)], in seconds. *)
Definition sampleInterval : Z := 30 * 60.

(** The [for] loop of [simpleMovingAverage]: [i] runs from its current
    value while [i < numPoints]; [todo] is [numPoints - i]. *)
Fixpoint sma_loop (dataset : list Datum) (point : nat) (i : nat)
    (todo : nat) (sum : float) : option float :=
  match todo with
  | O => Some sum
  | S todo' =>
      d ← get dataset (Z.of_nat point - Z.of_nat i);
      sma_loop dataset point (S i) todo' (sum + y d)%float
  end.

Definition simpleMovingAverage (dataset : list Datum) (point : nat)
    (numPoints : nat) : option float :=
  sum ← sma_loop dataset point 0 numPoints 0%float;
  Some (sum / Number_of_nat numPoints)%float.

(** The callback of [calculateSMADataset]; the state is [datasetSMA]. *)
Definition sma_callback (dataset : list Datum) (datasetSMA : list Datum)
    (datum : Datum) (index : nat) : option (list Datum) :=
  if (index =? 0)%nat then
    Some (datasetSMA ++ [datum])
  else if (index <? 12)%nat then
    v ← simpleMovingAverage dataset index index;
    Some (datasetSMA ++ [mkDatum (x datum) v])
  else
    v ← simpleMovingAverage dataset index 12;
    Some (datasetSMA ++ [mkDatum (x datum) v]).

Definition calculateSMADataset (dataset : list Datum)
    : option (list Datum) :=
  forEach dataset (sma_callback dataset) [].

(** A CanvasJS custom scale break. *)
Record Break := mkBreak {
  startValue : Date;
  endValue : Date;
  type : string;
  spacing : Z
}.

(** The callback of [getXBreaks]; the state is [customBreaks]. *)
Definition breaks_callback (data : list Datum) (customBreaks : list Break)
    (datum : Datum) (index : nat) : option (list Break) :=
  let maxInterval := 10 * sampleInterval * 1000 in
  if negb (Z.of_nat index =? Z.of_nat (length data) - 1) then
    nextDatum ← data !! (index + 1)%nat;
    if maxInterval <? getTime (x nextDatum) - getTime (x datum) then
      Some (customBreaks ++
            [mkBreak
               (newDate (getTime (x datum) + 3 * sampleInterval * 1000))
               (newDate (getTime (x nextDatum) - 3 * sampleInterval * 1000))
               "wavy" 1])
    else Some customBreaks
  else Some customBreaks.

Definition getXBreaks (data : list Datum) : option (list Break) :=
  forEach data (breaks_callback data) [].

(** One record of [data.json]. *)
Record Reading := mkReading {
  time : string;
  temp : string;
  humidity : string
}.

(** The options of the chart that [updateChart] assigns, and how often
    the chart was rendered.  [None] is the [null] they start with.
    [dataPoints0 .. dataPoints3] are [chart.options.data[0 .. 3].dataPoints]:
    temperature, humidity, and the two averages. *)
Record Chart := mkChart {
  customBreaks : option (list Break);
  dataPoints0 : option (list Datum);
  dataPoints1 : option (list Datum);
  dataPoints2 : option (list Datum);
  dataPoints3 : option (list Datum);
  renders : nat
}.

Section UpdateChart.

(** [new Date(string)], the runtime's date parser. *)
Variable DateOfString : string -> Date.

(** The callback of [$.each]; the state is [tempData] and
    [humidityData]. *)
Definition each_callback (acc : list Datum * list Datum) (value : Reading)
    : list Datum * list Datum :=
  (acc.1 ++ [mkDatum (DateOfString (time value)) (parseFloat (temp value))],
   acc.2 ++ [mkDatum (DateOfString (time value))
                     (parseInt (humidity value))]).

(** The callback [updateChart] hands to [$.getJSON]: what a refresh
    does with the records it received. *)
Definition updateChart_callback (data : list Reading) (chart : Chart)
    : option Chart :=
  let '(tempData, humidityData) := fold_left each_callback data ([], []) in
  tempSMA ← calculateSMADataset tempData;
  humiditySMA ← calculateSMADataset humidityData;
  breaks ← getXBreaks tempData;
  Some (mkChart (Some breaks) (Some tempData) (Some humidityData)
                (Some tempSMA) (Some humiditySMA) (S (renders chart))).

End UpdateChart.

End Dashboard.

(** ** The data functions over a store of objects

    The same two functions once more, this time with the objects of the
    script kept in a store: arrays hold references, [push] updates an array
    in place, and an object literal allocates.  This is the model in which
    "modifies its input" means something. *)

Module Heap.
Import JS Dashboard.

(** A reference is an address in the store. *)
Abbreviation ref := nat.

Inductive Object :=
| DatumObject (d : Datum)
| BreakObject (b : Break)
| ArrayObject (elems : list ref).

(** The store: address [r] is position [r]; allocation appends. *)
Abbreviation heap := (list Object).

(** A computation over the store; [None] is a TypeError. *)
Definition Mem (A : Type) : Type := heap -> option (A * heap).

#[export] Instance Mem_ret : MRet Mem := fun A a h => Some (a, h).
#[export] Instance Mem_bind : MBind Mem := fun A B k m h =>
  match m h with
  | Some (a, h') => k a h'
  | None => None
  end.

Definition lift {A} (o : option A) : Mem A :=
  fun h => match o with Some a => Some (a, h) | None => None end.

Definition alloc (o : Object) : Mem ref :=
  fun h => Some (length h, h ++ [o]).

(** The elements of the array at [arr]. *)
Definition elements (arr : ref) : Mem (list ref) :=
  fun h =>
    match h !! arr with
    | Some (ArrayObject elems) => Some (elems, h)
    | _ => None
    end.

(** The fields of the data point at [r]. *)
Definition fields (r : ref) : Mem Datum :=
  fun h =>
    match h !! r with
    | Some (DatumObject d) => Some (d, h)
    | _ => None
    end.

(** [arr.push(r)] *)
Definition push (arr : ref) (r : ref) : Mem unit :=
  fun h =>
    match h !! arr with
    | Some (ArrayObject elems) =>
        Some (tt, <[arr := ArrayObject (elems ++ [r])]> h)
    | _ => None
    end.

(** [arr.forEach(f)]: the indices below the length the array had at the
    start, each element read when its turn comes. *)
Fixpoint forEach_from (f : ref -> nat -> Mem unit) (arr : ref)
    (i todo : nat) : Mem unit :=
  match todo with
  | O => mret tt
  | S todo' =>
      elems ← elements arr;
      match elems !! i with
      | Some r => f r i
      | None => mret tt
      end;;
      forEach_from f arr (S i) todo'
  end.

Definition forEach (arr : ref) (f : ref -> nat -> Mem unit) : Mem unit :=
  elems ← elements arr;
  forEach_from f arr 0 (length elems).

Fixpoint sma_loop (dataset : ref) (point : nat) (i : nat) (todo : nat)
    (sum : float) : Mem float :=
  match todo with
  | O => mret sum
  | S todo' =>
      elems ← elements dataset;
      r ← lift (get elems (Z.of_nat point - Z.of_nat i));
      d ← fields r;
      sma_loop dataset point (S i) todo' (sum + y d)%float
  end.

Definition simpleMovingAverage (dataset : ref) (point : nat)
    (numPoints : nat) : Mem float :=
  sum ← sma_loop dataset point 0 numPoints 0%float;
  mret (sum / Number_of_nat numPoints)%float.

Definition sma_callback (dataset datasetSMA : ref) (datum : ref)
    (index : nat) : Mem unit :=
  if (index =? 0)%nat then
    push datasetSMA datum
  else if (index <? 12)%nat then
    d ← fields datum;
    v ← simpleMovingAverage dataset index index;
    o ← alloc (DatumObject (mkDatum (x d) v));
    push datasetSMA o
  else
    d ← fields datum;
    v ← simpleMovingAverage dataset index 12;
    o ← alloc (DatumObject (mkDatum (x d) v));
    push datasetSMA o.

Definition calculateSMADataset (dataset : ref) : Mem ref :=
  datasetSMA ← alloc (ArrayObject []);
  forEach dataset (sma_callback dataset datasetSMA);;
  mret datasetSMA.

Definition breaks_callback (data customBreaks : ref) (datum : ref)
    (index : nat) : Mem unit :=
  let maxInterval := 10 * sampleInterval * 1000 in
  elems ← elements data;
  if negb (Z.of_nat index =? Z.of_nat (length elems) - 1) then
    nextDatum ← lift (elems !! (index + 1)%nat);
    next ← fields nextDatum;
    this ← fields datum;
    if maxInterval <? getTime (x next) - getTime (x this) then
      o ← alloc (BreakObject
             (mkBreak
                (newDate (getTime (x this) + 3 * sampleInterval * 1000))
                (newDate (getTime (x next) - 3 * sampleInterval * 1000))
                "wavy" 1));
      push customBreaks o
    else mret tt
  else mret tt.

Definition getXBreaks (data : ref) : Mem ref :=
  customBreaks ← alloc (ArrayObject []);
  forEach data (breaks_callback data customBreaks);;
  mret customBreaks.

(** *** Reading a result back *)

Definition datum_at (h : heap) (r : ref) : option Datum :=
  match h !! r with
  | Some (DatumObject d) => Some d
  | _ => None
  end.

Definition break_at (h : heap) (r : ref) : option Break :=
  match h !! r with
  | Some (BreakObject b) => Some b
  | _ => None
  end.

Definition array_at (h : heap) (r : ref) : option (list ref) :=
  match h !! r with
  | Some (ArrayObject elems) => Some elems
  | _ => None
  end.

(** The series an array of data points holds, and the list of breaks an
    array of breaks holds. *)
Definition series_at (h : heap) (arr : ref) : option (list Datum) :=
  elems ← array_at h arr; mapM (datum_at h) elems.

Definition breaks_at (h : heap) (arr : ref) : option (list Break) :=
  elems ← array_at h arr; mapM (break_at h) elems.

(** Every object of [h] is in [h'], unchanged, at its address. *)
Definition preserved (h h' : heap) : Prop := take (length h) h' = h.

End Heap.

(** ** The server's control routes *)

Module Server.

(** What a route spawns on the device. *)
Inductive Command :=
| Reboot   (* shutdown -r now *)
| Halt.    (* shutdown -h now *)

(** The text a route sends, and the command it then spawns. *)
Definition route (name : string) : option (string * option Command) :=
  if String.eqb name "test" then
    Some ("Welcome to WetSpec."%string, None)
  else if String.eqb name "restart" then
    Some ("WetSpec is restarting. Please wait..."%string, Some Reboot)
  else if String.eqb name "shutdown" then
    Some ("WetSpec is shutting down. Goodbye!"%string, Some Halt)
  else None.

(** The body of the response to a request that reached the server. *)
Definition body (name : string) : string :=
  match route name with
  | Some (text, _) => text
  | None => ""%string
  end.

End Server.

(** ** The page: timers, handlers and the network

    The script runs on one thread.  An [async] function is a computation
    over the state of the page; where it awaits, virtual time passes, and
    what falls due meanwhile runs: the callbacks of the interval timers,
    and what is left of a function that was called without [await].  The
    network is a script of exchanges: the n-th [fetch] takes the n-th
    exchange, which says how long the request takes and whether it reaches
    the server.  A result [None] means the script of exchanges ran out. *)

Module Page.
Import Dashboard.

Record Exchange := mkExchange {
  latency : N;          (* milliseconds until the promise settles *)
  reachable : bool      (* false: the request fails at network level *)
}.

(** What is left of an asynchronous function once it has reached an
    [await] and its caller, who did not await it, has gone on.  The script
    has one function that is called so, [showDashboard] (by
    [window.onload] and by [restartHandler]); it awaits once, and what is
    left of it then is its last statement. *)
Inductive Continuation :=
| showDashboard_rest.     (* $('#message').html('') *)

Inductive Event :=
| Fetch (url : string) (answered : bool)
| Sleep (ms : N)
| HideDashboard (message : string)
| ShowDashboard
| SetInterval (ms : N)
| Message (html : string)
| UpdateChart                              (* called by [showDashboard] *)
| Tick (at_ms : N) (displayed : bool)      (* called by an interval timer *)
| Cleared (at_ms : N).                     (* [showDashboard_rest] has run *)

Record World := mkWorld {
  now : N;                  (* the clock, in milliseconds *)
  timers : list N;          (* next due time of each active interval timer *)
  pending : list (N * Continuation);
                            (* timeouts that are not due yet, and what
                               each of them resumes *)
  display : bool;           (* chart, buttons and title: block or none *)
  message : string;         (* the HTML of [#message] *)
  network : list Exchange;
  trace : list Event        (* what happened, oldest first *)
}.

(** [Math.round(sampleInterval / 4) * 1000], the period every interval
    timer of the script is created with. *)
Definition refreshPeriod : N :=
  Z.to_N (JS.Math_round_div sampleInterval 4 * 1000).

Definition log (e : Event) (w : World) : World :=
  mkWorld (now w) (timers w) (pending w) (display w) (message w) (network w)
          (trace w ++ [e]).

Definition set_display (shown : bool) (w : World) : World :=
  mkWorld (now w) (timers w) (pending w) shown (message w) (network w)
          (trace w).

Definition set_message (html : string) (w : World) : World :=
  mkWorld (now w) (timers w) (pending w) (display w) html (network w)
          (trace w).

Definition set_network (net : list Exchange) (w : World) : World :=
  mkWorld (now w) (timers w) (pending w) (display w) (message w) net
          (trace w).

Definition add_timer (due : N) (w : World) : World :=
  mkWorld (now w) (timers w ++ [due]) (pending w) (display w) (message w)
          (network w) (trace w).

Definition add_pending (due : N) (k : Continuation) (w : World) : World :=
  mkWorld (now w) (timers w) (pending w ++ [(due, k)]) (display w)
          (message w) (network w) (trace w).

(** *** The event loop *)

(** Of a list of due times the one that comes first (the oldest one among
    equals): its position and the time. *)
Fixpoint earliest (ts : list N) (pos : nat) : option (nat * N) :=
  match ts with
  | [] => None
  | d :: rest =>
      match earliest rest (S pos) with
      | Some (i, d') => if (d' <? d)%N then Some (i, d') else Some (pos, d)
      | None => Some (pos, d)
      end
  end.

(** Timer [i] fires at its due time [d]: the callback calls
    [updateChart], and the timer is due again one period later. *)
Definition fire (i : nat) (d : N) (w : World) : World :=
  mkWorld d (<[i := (d + refreshPeriod)%N]> (timers w)) (pending w)
          (display w) (message w) (network w)
          (trace w ++ [Tick d (display w)]).

(** The timeout of the pending continuation [j] is due, at [e]: the
    function it belongs to goes on from its [await]. *)
Definition wake (j : nat) (e : N) (w : World) : World :=
  match pending w !! j with
  | Some (_, showDashboard_rest) =>
      mkWorld e (timers w) (delete j (pending w)) (display w)
              ""                              (* $('#message').html('') *)
              (network w) (trace w ++ [Cleared e])
  | None => w
  end.

Inductive Next :=
| NextTimer (i : nat) (d : N)
| NextPending (j : nat) (e : N)
| Nothing.

(** What runs next: the interval timer or the pending continuation that
    is due first, a timer where both are due at the same time. *)
Definition next (w : World) : Next :=
  match earliest (timers w) 0, earliest (map fst (pending w)) 0 with
  | Some (i, d), Some (j, e) =>
      if (d <=? e)%N then NextTimer i d else NextPending j e
  | Some (i, d), None => NextTimer i d
  | None, Some (j, e) => NextPending j e
  | None, None => Nothing
  end.

Fixpoint run_due (fuel : nat) (until : N) (w : World) : World :=
  match fuel with
  | O => w
  | S fuel' =>
      match next w with
      | NextTimer i d =>
          if (d <=? until)%N then run_due fuel' until (fire i d w) else w
      | NextPending j e =>
          if (e <=? until)%N then run_due fuel' until (wake j e w) else w
      | Nothing => w
      end
  end.

(** How often the timers fire up to [until]. *)
Definition firings (until : N) (ts : list N) : nat :=
  foldr (fun d n =>
           if (d <=? until)%N
           then (N.to_nat ((until - d) / refreshPeriod) + 1 + n)%nat
           else n) 0%nat ts.

(** The event loop has nothing else to do for [ms] milliseconds: what
    falls due in that time runs, in the order in which it is due.  A
    pending continuation runs once and a timer as often as [firings]
    says, which bounds the number of turns. *)
Definition advance (ms : N) (w : World) : World :=
  let until := (now w + ms)%N in
  let w' := run_due (firings until (timers w) + length (pending w)) until w in
  mkWorld until (timers w') (pending w') (display w') (message w')
          (network w') (trace w').

(** *** Asynchronous functions *)

Inductive Completion (A : Type) :=
| Returned (a : A)
| Threw (err : string).
Arguments Returned {A} a.
Arguments Threw {A} err.

Definition Async (A : Type) : Type :=
  World -> option (Completion A * World).

Definition ret {A} (a : A) : Async A := fun w => Some (Returned a, w).

Definition throw {A} (err : string) : Async A := fun w => Some (Threw err, w).

Definition bind {A B} (m : Async A) (k : A -> Async B) : Async B :=
  fun w =>
    match m w with
    | Some (Returned a, w') => k a w'
    | Some (Threw err, w') => Some (Threw err, w')
    | None => None
    end.

(** [try { m } catch (err) { handler }] *)
Definition try_catch {A} (m : Async A) (handler : string -> Async A)
    : Async A :=
  fun w =>
    match m w with
    | Some (Threw err, w') => handler err w'
    | other => other
    end.

Definition effect (f : World -> World) : Async unit :=
  fun w => Some (Returned tt, f w).

#[export] Instance Async_ret : MRet Async := @ret.
#[export] Instance Async_bind : MBind Async := fun A B k m => bind m k.

(** [await sleep(ms)]: the function that awaits goes on when the timeout
    is due, [ms] milliseconds from now. *)
Definition sleep (ms : N) : Async unit :=
  effect (log (Sleep ms));; effect (advance ms).

(** [await sleep(ms)] in a function that nobody awaits: the call of that
    function returns here, and [rest] is left pending on the timeout. *)
Definition sleep_and_leave (ms : N) (rest : Continuation) : Async unit :=
  effect (log (Sleep ms));;
  effect (fun w => add_pending (now w + ms)%N rest w).

Record Response := mkResponse { text : string }.

(** [await fetch(url)] *)
Definition fetch (url : string) : Async Response :=
  fun w =>
    match network w with
    | [] => None
    | ex :: rest =>
        let sent := log (Fetch url (reachable ex)) (set_network rest w) in
        let settled := advance (latency ex) sent in
        if reachable ex
        then Some (Returned (mkResponse (Server.body url)), settled)
        else Some (Threw "TypeError: Failed to fetch", settled)
    end.

(** [fetchRetry(url, options, n)], unfolded at most [fuel] times. *)
Fixpoint fetchRetry_fuel (fuel : nat) (url : string) (n : Z)
    : Async Response :=
  match fuel with
  | O => fun _ => None
  | S fuel' =>
      try_catch (fetch url)
        (fun err =>
           if n =? 1 then throw err
           else sleep 5000;; fetchRetry_fuel fuel' url (n - 1))
  end.

(** Every unfolding takes an exchange off the script, so one more than
    there are exchanges is fuel enough. *)
Definition fetchRetry (url : string) (n : Z) : Async Response :=
  fun w => fetchRetry_fuel (S (length (network w))) url n w.

(** The template [`<p>${message}</p>`]. *)
Definition paragraph (msg : string) : string :=
  String.append "<p>" (String.append msg "</p>").

Definition hideDashboard (msg : string) : Async unit :=
  effect (fun w =>
    log (HideDashboard msg)
        (set_message (paragraph msg) (set_display false w))).

Definition updateChart : Async unit := effect (log UpdateChart).

Definition setInterval (ms : N) : Async unit :=
  effect (fun w => log (SetInterval ms) (add_timer (now w + ms)%N w)).

Definition setMessage (html : string) : Async unit :=
  effect (fun w => log (Message html) (set_message html w)).

(** A call [showDashboard(message)].  No caller awaits the function, so
    the call is over when the body reaches its [await sleep(3000)]: the
    message is on display, the timeout is set, and the statement after
    the [await] is left pending.  With the empty message the body has no
    [await] and the call runs all of it. *)
Definition showDashboard (msg : string) : Async unit :=
  updateChart;;
  effect (fun w => log ShowDashboard (set_display true w));;
  setInterval refreshPeriod;;
  if negb (String.eqb msg "") then
    setMessage (paragraph msg);;
    sleep_and_leave 3000 showDashboard_rest
  else ret tt.

Definition fatalMessage : string :=
  "
Something went wrong while restarting the WetSpec device. You may need to
manually reset it, then reload this page.
".

(** [restartHandler()].  Its last statement calls [showDashboard] and
    does not await it: the handler is done when that call is over. *)
Definition restartHandler : Async unit :=
  response ← fetch "restart";
  hideDashboard (text response);;
  sleep 3000;;
  r ← try_catch
         (response ← fetchRetry "test" 10;
          ret (Some (text response)))
         (fun err =>
            hideDashboard fatalMessage;;
            ret None);
  match r with
  | None => ret tt
  | Some msg => showDashboard msg
  end.

Definition shutdownHandler : Async unit :=
  response ← fetch "shutdown";
  hideDashboard (text response).

(** [window.onload], after the chart object is built: the call of
    [showDashboard], which is not awaited either.  (The two [click]
    handlers it then registers are the [act]ions below.) *)
Definition onload : Async unit := showDashboard "Welcome to WetSpec".

(** *** Sessions *)

Inductive Action :=
| Idle (ms : N)
| ClickRestart
| ClickShutdown.

Definition act (a : Action) : Async unit :=
  match a with
  | Idle ms => effect (advance ms)
  | ClickRestart => restartHandler
  | ClickShutdown => shutdownHandler
  end.

(** The actions of a session happen one after the other.  A click is
    followed until its handler is done, which is before what the handler
    left pending has run: the next action may find a continuation of
    [showDashboard] still waiting for its timeout.  A handler that throws
    leaves an unhandled rejection behind and the page goes on.  (Once a
    command is answered the buttons are hidden until the handler shows
    them again; a second click while the command itself is still on its
    way is not among the sessions described here.) *)
Fixpoint actions (l : list Action) (w : World) : option World :=
  match l with
  | [] => Some w
  | a :: rest =>
      match act a w with
      | Some (_, w') => actions rest w'
      | None => None
      end
  end.

(** The page when [window.onload] has returned. *)
Definition loaded (net : list Exchange) : option World :=
  match onload (mkWorld 0 [] [] false "" net []) with
  | Some (_, w) => Some w
  | None => None
  end.

Definition session (net : list Exchange) (l : list Action) : option World :=
  w ← loaded net; actions l w.

End Page.

(** ** What the specification says, in its own words *)

Module Spec.
Import JS Dashboard.

(** Arithmetic mean of a list of numbers, in binary64: the sum, started
    at 0 and taken in list order, over the count. *)
Definition mean (vals : list float) : float :=
  (fold_left PrimFloat.add vals 0 / Number_of_nat (length vals))%float.

(** The raw values at positions [first .. last] of a series, the most
    recent (position [last]) first. *)
Definition values_back (series : list Datum) (first last : nat)
    : list float :=
  reverse (map y (take (S last - first) (drop first series))).

(** The adjacent pairs of a series, in series order. *)
Definition adjacent_pairs (series : list Datum) : list (Datum * Datum) :=
  zip series (drop 1 series).

(** A gap of more than ten sample intervals (seconds, against
    millisecond time values). *)
Definition long_gap (p : Datum * Datum) : bool :=
  10 * (sampleInterval * 1000) <? getTime (x p.2) - getTime (x p.1).

(** The break of a pair: three sample intervals in from each side. *)
Definition break_of (p : Datum * Datum) : Break :=
  mkBreak (newDate (getTime (x p.1) + 3 * (sampleInterval * 1000)))
          (newDate (getTime (x p.2) - 3 * (sampleInterval * 1000)))
          "wavy" 1.

Definition findBreaks (series : list Datum) : list Break :=
  map break_of (List.filter long_gap (adjacent_pairs series)).

(** Strictly increasing by timestamp. *)
Definition increasing (series : list Datum) : Prop :=
  Forall (fun p => getTime (x p.1) < getTime (x p.2))
         (adjacent_pairs series).

(** *** Numeric strings *)

Definition isDecimalDigit (c : ascii) : bool :=
  let n := nat_of_ascii c in (48 <=? n)%nat && (n <=? 57)%nat.

(** A non-empty run of decimal digits, and nothing else. *)
Fixpoint allDigits (s : string) : bool :=
  match s with
  | String c rest => isDecimalDigit c && allDigits rest
  | EmptyString => true
  end.

Definition DecimalDigits (s : string) : Prop :=
  s <> EmptyString /\ allDigits s = true.

(** The integer a run of decimal digits denotes, continuing from [acc]. *)
Fixpoint decimalValue (s : string) (acc : Z) : Z :=
  match s with
  | String c rest =>
      decimalValue rest (acc * 10 + (Z.of_nat (nat_of_ascii c) - 48))
  | EmptyString => acc
  end.









(** The positions whose raw values position [j] of the smoothed series
    is computed from. *)
Definition in_window (i j : nat) : Prop :=
  (j = 0 /\ i = 0)%nat
  \/ (0 < j < 12 /\ 1 <= i <= j)%nat
  \/ (12 <= j /\ j - 11 <= i <= j)%nat.

(** The raw series a refresh builds from the records it received. *)
Definition rawTemperature (DateOfString : string -> Date)
    (data : list Reading) : list Datum :=
  map (fun value =>
         mkDatum (DateOfString (time value)) (parseFloat (temp value)))
      data.

Definition rawHumidity (DateOfString : string -> Date)
    (data : list Reading) : list Datum :=
  map (fun value =>
         mkDatum (DateOfString (time value)) (parseInt (humidity value)))
      data.

End Spec.

Import JS Dashboard Spec.

(** The point the smoother produces at position [i] from the raw point
    [d] found there. *)
Definition smoothed_at (dataset : list Datum) (i : nat) (d : Datum) : Datum :=
  if (i =? 0)%nat then d
  else if (i <? 12)%nat then mkDatum (x d) (mean (values_back dataset 1 i))
  else mkDatum (x d) (mean (values_back dataset (i - 11) i)).

(** What the callback of [getXBreaks] appends at position [k], where it
    finds the point [a]. *)
Definition breaks_after (data : list Datum) (k : nat) (a : Datum)
    : list Break :=
  match data !! S k with
  | Some b => if long_gap (a, b) then [break_of (a, b)] else []
  | None => []
  end.

(** *** What is observed of the page *)

Module Observed.
Import Page.

(** An event that a timer or a timeout brought about, not the function
    under way. *)
Definition from_timer (e : Event) : bool :=
  match e with
  | Tick _ _ | Cleared _ => true
  | _ => false
  end.

(** What the function under way did itself: what the interval timers
    and the pending continuations did while it waited is left out. *)
Definition effects (w : World) : list Event :=
  List.filter (fun e => negb (from_timer e)) (trace w).

(** The times at which a timer fires that is due at [d]: [d], one period
    later, two periods later, ... *)
Definition fires_at (d t : N) : Prop :=
  exists n : N, t = (d + n * refreshPeriod)%N.

(** When a timer that was due at [d] is due next, at the time [t]: it
    has fired up to [t] and is due one period after its last firing. *)
Definition next_due (t d : N) : N :=
  if (d <=? t)%N
  then (d + ((t - d) / refreshPeriod + 1) * refreshPeriod)%N
  else d.

(** From [w] to [w'] the function under way has waited, [ms]
    milliseconds in all, and done [evs]; it has not touched the display
    or the message.  Meanwhile the clock has moved on and everything that
    fell due has run: every timer, at each of its times, has called
    [updateChart] with the display as it was, and every continuation that
    was pending has emptied the message. *)
Record waited (ms : N) (evs : list Event) (w w' : World) : Prop := mkWaited {
  waited_now : now w' = (now w + ms)%N;
  waited_timers : timers w' = map (next_due (now w')) (timers w);
  waited_pending :
    pending w' = List.filter (fun p => (now w' <? p.1)%N) (pending w);
  waited_display : display w' = display w;
  waited_message :
    message w'
    = if existsb (fun p => (p.1 <=? now w')%N) (pending w)
      then ""%string else message w;
  waited_effects : effects w' = effects w ++ evs;
  waited_trace :
    exists new,
      trace w' = trace w ++ new
      /\ (forall d t, d ∈ timers w -> fires_at d t -> (t <= now w')%N ->
                      Tick t (display w) ∈ new)
      /\ (forall e k, (e, k) ∈ pending w -> (e <= now w')%N ->
                      Cleared e ∈ new)
}.

(** From [w] to [w'] the handler under way has waited [ms1]
    milliseconds, hidden the dashboard, and waited [ms2] more, doing [evs]
    in all.  Everything that fell due has run: every timer, at each of
    its times, has called [updateChart], with the display as the handler
    found it up to the moment the dashboard was hidden, and with the
    dashboard hidden from then on. *)
Record hidden_after (ms1 ms2 : N) (evs : list Event) (w w' : World)
    : Prop := mkHiddenAfter {
  hidden_now : now w' = (now w + ms1 + ms2)%N;
  hidden_timers : timers w' = map (next_due (now w')) (timers w);
  hidden_pending :
    pending w' = List.filter (fun p => (now w' <? p.1)%N) (pending w);
  hidden_display : display w' = false;
  hidden_effects : effects w' = effects w ++ evs;
  hidden_trace :
    exists new,
      trace w' = trace w ++ new
      /\ (forall d t, d ∈ timers w -> fires_at d t -> (t <= now w')%N ->
            Tick t (if (now w + ms1 <? t)%N then false else display w)
            ∈ new)
}.

(** [k] failed attempts of [fetchRetry], each followed by its wait. *)
Fixpoint retries (url : string) (k : nat) : list Event :=
  match k with
  | O => []
  | S k' => Fetch url false :: Sleep 5000 :: retries url k'
  end.


Definition at_most_one_timer (w : World) : Prop :=
  (length (timers w) <= 1)%nat.

(** The refreshes that timers ran among some events. *)
Definition ticks (evs : list Event) : list Event :=
  List.filter (fun e => match e with Tick _ _ => true | _ => false end) evs.

End Observed.

(** ** Concrete inputs *)

Module Examples.
Import JS Dashboard Heap Page.

(** Fourteen half-hourly points with the values 1, 3, 5, ... *)
Definition odd_series : list Datum :=
  map (fun i => mkDatum (newDate (Z.of_nat i * 1800000))
                        (Number_of_nat (2 * i + 1)))
      (seq 0 14).

(** Two points eleven sample intervals apart. *)
Definition two_points : list Datum :=
  [mkDatum (newDate 0) 50; mkDatum (newDate 19800000) 52].




(** The date parser of the examples: every string is the epoch. *)
Definition epoch (s : string) : Date := newDate 0.

Definition empty_chart : Chart := mkChart None None None None None 0.

(** A store with three data points and, at address 3, the array of
    them. *)
Definition small_store : list Object :=
  [DatumObject (mkDatum (newDate 0) 50);
   DatumObject (mkDatum (newDate 1800000) 52);
   DatumObject (mkDatum (newDate 21600000) 54);
   ArrayObject [0; 1; 2]%nat].

Definition small_series : list Datum :=
  [mkDatum (newDate 0) 50; mkDatum (newDate 1800000) 52;
   mkDatum (newDate 21600000) 54].

(** Exchanges that take 20 ms: one that reaches the server and one that
    does not. *)
Definition up : Exchange := mkExchange 20 true.
Definition down : Exchange := mkExchange 20 false.

(** The page three seconds after it was loaded, when the welcome has
    been cleared, with a given network ahead. *)
Definition fresh (net : list Exchange) : World :=
  mkWorld 3000 [450000%N] [] true "" net
    [UpdateChart; ShowDashboard; SetInterval 450000;
     Message "<p>Welcome to WetSpec</p>"; Sleep 3000; Cleared 3000].

(** The page one second after it was loaded, with the welcome on
    display. *)
Definition welcoming (net : list Exchange) : World :=
  mkWorld 1000 [450000%N] [(3000%N, showDashboard_rest)] true
    "<p>Welcome to WetSpec</p>" net
    [UpdateChart; ShowDashboard; SetInterval 450000;
     Message "<p>Welcome to WetSpec</p>"; Sleep 3000].

End Examples.


(** ** Further observations

    Definitions used to state further properties of the same functions. *)

From Stdlib Require Import Sorting.Sorted.

Module More.
Import JS Dashboard Spec.

(** The time value of a data point, and the ends of a break. *)
Definition timeOf (d : Datum) : Z := getTime (x d).
Definition breakStart (b : Break) : Z := getTime (startValue b).
Definition breakEnd (b : Break) : Z := getTime (endValue b).

(** One sample interval, in milliseconds. *)
Definition interval_ms : Z := sampleInterval * 1000.

(** A series with two long gaps. *)
Definition gappy_series : list Datum :=
  [mkDatum (newDate 0) 50; mkDatum (newDate 1800000) 51;
   mkDatum (newDate 36000000) 52; mkDatum (newDate 37800000) 53;
   mkDatum (newDate 90000000) 54].

(** The commands the server spawned for the requests of a trace: one for
    every answered request to a route that spawns one. *)
Definition spawned (evs : list Page.Event) : list Server.Command :=
  omap (fun e =>
          match e with
          | Page.Fetch url true =>
              match Server.route url with
              | Some (_, command) => command
              | None => None
              end
          | _ => None
          end) evs.

(** [odd_series] with a NaN in place of its first value. *)
Definition odd_series_nan : list Datum :=
  <[0%nat := mkDatum (newDate 0) nan]> Examples.odd_series.

(** The time the exchanges of a script take together. *)
Definition latencies (l : list Page.Exchange) : N :=
  foldr (fun ex total => (Page.latency ex + total)%N) 0%N l.

End More.

(** ** The legend of the chart

    The [itemclick] handler the chart is configured with in
    [window.onload].  A click on a legend entry hands the handler the
    series of that entry; here the series is named by its position. *)

Module Legend.

(** A data series of the chart as far as the handler goes; its [visible]
    is [None] where the property is undefined. *)
Record DataSeries := mkDataSeries {
  name : string;
  visible : option bool
}.

Record LegendChart := mkLegendChart {
  data : list DataSeries;
  rendered : nat
}.

(** [typeof (visible) === "undefined" || visible], the handler's test of
    whether the series is on display. *)
Definition displayed (s : DataSeries) : bool :=
  match visible s with
  | None => true
  | Some b => b
  end.

Definition itemclick (k : nat) (chart : LegendChart) : LegendChart :=
  match data chart !! k with
  | Some s =>
      mkLegendChart
        (<[k := mkDataSeries (name s)
                  (if displayed s then Some false else Some true)]>
           (data chart))
        (S (rendered chart))
  | None => chart
  end.

(** The four series as [window.onload] sets them up: the raw ones hidden,
    the averages on display. *)
Definition configured : LegendChart :=
  mkLegendChart
    [mkDataSeries "Temperature" (Some false);
     mkDataSeries "Humidity" (Some false);
     mkDataSeries "Temperature 6-Hour Average" (Some true);
     mkDataSeries "Humidity 6-Hour Average" (Some true)]
    0.

End Legend.
(** ** The smoother *)

Lemma get_of_nat {A} (arr : list A) (k : nat) :
  get arr (Z.of_nat k) = arr !! k.
Proof.
  unfold get. destruct (Z.ltb_spec (Z.of_nat k) 0) as [Hneg|_]; [lia|].
  now rewrite Nat2Z.id.
Qed.

(** The loop adds the values at [point - i], [point - i - 1], ... in that
    order. *)
Lemma sma_loop_values (dataset : list Datum) (point : nat) :
  forall (todo i : nat) (sum : float),
    (point < length dataset)%nat ->
    (i + todo <= S point)%nat ->
    sma_loop dataset point i todo sum =
      Some (fold_left PrimFloat.add
              (reverse (map y (take todo (drop (S point - i - todo) dataset))))
              sum).
Proof.
  induction todo as [|todo IH]; intros i sum Hpt Hi; simpl.
  - reflexivity.
  - replace (Z.of_nat point - Z.of_nat i) with (Z.of_nat (point - i)) by lia.
    rewrite get_of_nat.
    destruct (lookup_lt_is_Some_2 dataset (point - i) ltac:(lia)) as [d Hd].
    rewrite Hd. simpl.
    rewrite (IH (S i) _ Hpt ltac:(lia)).
    replace (S point - S i - todo)%nat with (S point - i - S todo)%nat by lia.
    set (k := (S point - i - S todo)%nat).
    assert (Hk : drop k dataset !! todo = Some d).
    { rewrite lookup_drop. rewrite <- Hd. f_equal. subst k. lia. }
    rewrite (take_S_r _ _ _ Hk), map_app, reverse_app. reflexivity.
Qed.

Lemma simpleMovingAverage_mean (dataset : list Datum) (point n : nat) :
  (point < length dataset)%nat ->
  (n <= S point)%nat ->
  simpleMovingAverage dataset point n =
    Some (mean (values_back dataset (S point - n) point)).
Proof.
  intros Hpt Hn. unfold simpleMovingAverage, mean, values_back.
  rewrite (sma_loop_values dataset point n 0 _ Hpt ltac:(lia)). simpl.
  replace (S point - 0 - n)%nat with (S point - n)%nat by lia.
  replace (S point - (S point - n))%nat with n by lia.
  do 2 f_equal.
  rewrite length_reverse, length_map, length_take, length_drop. f_equal. lia.
Qed.

(** A [forEach] whose callback appends to its state builds the
    concatenation of what it appends, visit by visit. *)
Lemma forEach_from_append {A B} (f : list B -> A -> nat -> option (list B))
    (g : nat -> A -> list B) :
  forall (arr : list A) (i : nat) (acc : list B),
    (forall k a acc', arr !! k = Some a ->
       f acc' a (i + k)%nat = Some (acc' ++ g (i + k)%nat a)) ->
    forEach_from f i arr acc
    = Some (acc ++ concat (imap (fun k => g (i + k)%nat) arr)).
Proof.
  induction arr as [|a arr IH]; intros i acc Hf; simpl.
  - now rewrite app_nil_r.
  - specialize (Hf 0%nat a acc eq_refl) as Ha.
    rewrite Nat.add_0_r in Ha. rewrite Ha. simpl.
    rewrite (IH (S i)).
    + rewrite <- app_assoc, Nat.add_0_r. do 4 f_equal.
      apply imap_ext. intros k b _. simpl. f_equal. lia.
    + intros k b acc' Hk.
      replace (S i + k)%nat with (i + S k)%nat by lia. now apply Hf.
Qed.

Lemma concat_imap_singleton {A B} (h : nat -> A -> B) (l : list A) :
  concat (imap (fun k a => [h k a]) l) = imap h l.
Proof.
  revert h. induction l as [|a l IH]; intros h; simpl; [reflexivity|].
  f_equal. apply IH.
Qed.

Lemma sma_callback_push (dataset acc : list Datum) (i : nat) (d : Datum) :
  dataset !! i = Some d ->
  sma_callback dataset acc d i = Some (acc ++ [smoothed_at dataset i d]).
Proof.
  intros Hd. apply lookup_lt_Some in Hd as Hlt.
  unfold sma_callback, smoothed_at.
  destruct (Nat.eqb_spec i 0) as [->|Hi0]; [reflexivity|].
  destruct (Nat.ltb_spec i 12) as [Hi|Hi].
  - rewrite simpleMovingAverage_mean by lia. simpl.
    now replace (S i - i)%nat with 1%nat by lia.
  - rewrite simpleMovingAverage_mean by lia. simpl.
    now replace (S i - 12)%nat with (i - 11)%nat by lia.
Qed.

Lemma calculateSMADataset_imap (dataset : list Datum) :
  calculateSMADataset dataset = Some (imap (smoothed_at dataset) dataset).
Proof.
  unfold calculateSMADataset, forEach.
  rewrite (forEach_from_append _ (fun k a => [smoothed_at dataset k a])).
  - simpl. now rewrite concat_imap_singleton.
  - intros k a acc' Hk. now apply sma_callback_push.
Qed.

(** C1. For every series and every position [i] with [0 < i < 12] the
    smoother succeeds, and its output has at [i] the timestamp of the input
    point and, as value, the arithmetic mean of exactly [i] raw values:
    those at positions [1 .. i] (summed from position [i] backwards, as the
    loop does).  Position 0 is the raw point itself. *)
Theorem smooth_growth_window (series : list Datum) (i : nat) (d : Datum) :
  (0 < i < 12)%nat ->
  series !! i = Some d ->
  exists out,
    calculateSMADataset series = Some out
    /\ out !! i = Some (mkDatum (x d) (mean (values_back series 1 i)))
    /\ values_back series 1 i
       = reverse (map y (take i (drop 1 series)))
    /\ length (values_back series 1 i) = i
    /\ out !! 0%nat = series !! 0%nat.
Proof.
  intros [Hlo Hhi] Hd. apply lookup_lt_Some in Hd as Hlt.
  exists (imap (smoothed_at series) series).
  split; [apply calculateSMADataset_imap|].
  assert (Hv : values_back series 1 i
               = reverse (map y (take i (drop 1 series)))).
  { unfold values_back. now replace (S i - 1)%nat with i by lia. }
  repeat split.
  - rewrite list_lookup_imap, Hd. simpl. unfold smoothed_at.
    destruct (Nat.eqb_spec i 0); [lia|].
    destruct (Nat.ltb_spec i 12); [reflexivity|lia].
  - exact Hv.
  - rewrite Hv, length_reverse, length_map, length_take, length_drop. lia.
  - rewrite list_lookup_imap. now destruct (series !! 0%nat).
Qed.

(** C6. For every series and every position [i >= 12] the smoothed value
    at [i] is the arithmetic mean of the 12 raw values at positions
    [i - 11 .. i] (summed from position [i] backwards), under the timestamp
    of the input point. *)
Theorem smooth_full_window (series : list Datum) (i : nat) (d : Datum) :
  (12 <= i)%nat ->
  series !! i = Some d ->
  exists out,
    calculateSMADataset series = Some out
    /\ out !! i = Some (mkDatum (x d) (mean (values_back series (i - 11) i)))
    /\ values_back series (i - 11) i
       = reverse (map y (take 12 (drop (i - 11) series)))
    /\ length (values_back series (i - 11) i) = 12%nat.
Proof.
  intros Hi Hd. apply lookup_lt_Some in Hd as Hlt.
  exists (imap (smoothed_at series) series).
  split; [apply calculateSMADataset_imap|].
  assert (Hv : values_back series (i - 11) i
               = reverse (map y (take 12 (drop (i - 11) series)))).
  { unfold values_back. now replace (S i - (i - 11))%nat with 12%nat by lia. }
  repeat split.
  - rewrite list_lookup_imap, Hd. simpl. unfold smoothed_at.
    destruct (Nat.eqb_spec i 0); [lia|].
    destruct (Nat.ltb_spec i 12); [lia|reflexivity].
  - exact Hv.
  - rewrite Hv, length_reverse, length_map, length_take, length_drop. lia.
Qed.

Lemma smoothed_at_x (dataset : list Datum) (i : nat) (d : Datum) :
  x (smoothed_at dataset i d) = x d.
Proof.
  unfold smoothed_at.
  destruct (i =? 0)%nat; [reflexivity|]. now destruct (i <? 12)%nat.
Qed.

Lemma map_x_imap_smoothed (dataset l : list Datum) (f : nat -> nat) :
  map x (imap (fun k => smoothed_at dataset (f k)) l) = map x l.
Proof.
  revert f. induction l as [|a l IH]; intros f; simpl; [reflexivity|].
  rewrite smoothed_at_x. f_equal. apply (IH (fun k => f (S k))).
Qed.

(** C7. The smoother raises no error: on every series it returns a series
    of the same length, with the same timestamp at every position and the
    raw point itself at position 0; the empty series gives the empty
    series. *)
Theorem smooth_shape (series : list Datum) :
  (exists out,
     calculateSMADataset series = Some out
     /\ length out = length series
     /\ map x out = map x series
     /\ out !! 0%nat = series !! 0%nat)
  /\ calculateSMADataset [] = Some [].
Proof.
  split; [|reflexivity].
  exists (imap (smoothed_at series) series).
  split; [apply calculateSMADataset_imap|]. repeat split.
  - apply length_imap.
  - apply (map_x_imap_smoothed series series (fun k => k)).
  - rewrite list_lookup_imap. now destruct (series !! 0%nat).
Qed.

(** ** The gap segmenter *)

(** What the callback of [getXBreaks] appends at position [k]. *)
Lemma breaks_callback_append (data : list Datum) (acc : list Break)
    (k : nat) (a : Datum) :
  data !! k = Some a ->
  breaks_callback data acc a k
  = Some (acc ++ match data !! S k with
                 | Some b => if long_gap (a, b) then [break_of (a, b)] else []
                 | None => []
                 end).
Proof.
  intros Ha. apply lookup_lt_Some in Ha as Hlt. unfold breaks_callback.
  destruct (Z.eqb_spec (Z.of_nat k) (Z.of_nat (length data) - 1)) as [Hl|Hl];
    simpl.
  - rewrite (lookup_ge_None_2 data (S k)) by lia. now rewrite app_nil_r.
  - replace (k + 1)%nat with (S k) by lia.
    destruct (lookup_lt_is_Some_2 data (S k) ltac:(lia)) as [b Hb].
    rewrite Hb. simpl. unfold long_gap, break_of. simpl.
    change (10 * sampleInterval * 1000) with (10 * (sampleInterval * 1000)).
    change (3 * sampleInterval * 1000) with (3 * (sampleInterval * 1000)).
    destruct (_ <? _); [reflexivity|now rewrite app_nil_r].
Qed.

(** Position by position, that is one break per adjacent pair with a long
    gap. *)
Lemma breaks_by_position (data : list Datum) :
  forall (pre arr : list Datum),
    data = pre ++ arr ->
    concat (imap (fun k a =>
                    match data !! S (length pre + k) with
                    | Some b =>
                        if long_gap (a, b) then [break_of (a, b)] else []
                    | None => []
                    end) arr)
    = findBreaks arr.
Proof.
  intros pre arr. revert pre.
  induction arr as [|a arr IH]; intros pre Hdata; [reflexivity|].
  simpl. rewrite Nat.add_0_r.
  assert (Hnext : data !! S (length pre) = arr !! 0%nat).
  { rewrite Hdata, lookup_app_r by lia.
    now replace (S (length pre) - length pre)%nat with 1%nat by lia. }
  rewrite Hnext.
  assert (Hrest :
    concat (imap ((fun k a0 =>
                    match data !! S (length pre + k) with
                    | Some b =>
                        if long_gap (a0, b) then [break_of (a0, b)] else []
                    | None => []
                    end) ∘ S) arr) = findBreaks arr).
  { rewrite <- (IH (pre ++ [a])).
    - f_equal. apply imap_ext. intros k b _. simpl.
      rewrite length_app. simpl.
      now replace (length pre + 1 + k)%nat with (length pre + S k)%nat by lia.
    - now rewrite <- app_assoc. }
  rewrite Hrest. unfold findBreaks, adjacent_pairs.
  destruct arr as [|b arr]; [reflexivity|]. simpl.
  rewrite drop_0. now destruct (long_gap (a, b)).
Qed.

Lemma getXBreaks_findBreaks (data : list Datum) :
  getXBreaks data = Some (findBreaks data).
Proof.
  unfold getXBreaks, forEach.
  rewrite (forEach_from_append _
             (fun k a => match data !! S k with
                         | Some b =>
                             if long_gap (a, b) then [break_of (a, b)] else []
                         | None => []
                         end)).
  - simpl. f_equal. now apply (breaks_by_position data []).
  - intros k a acc' Hk. now apply breaks_callback_append.
Qed.

Lemma findBreaks_no_long_gap (series : list Datum) :
  Forall (fun p => long_gap p = false) (adjacent_pairs series) ->
  findBreaks series = [].
Proof.
  unfold findBreaks. intros Hall.
  induction Hall as [|p l Hp _ IH]; [reflexivity|].
  simpl. now rewrite Hp.
Qed.

(** C3. On a series increasing by timestamp (the order is not used) the
    breaks are, in series order, one per adjacent pair whose gap exceeds
    ten sample intervals, from three intervals after the first point to
    three intervals before the second, and nothing else.  So a series of
    fewer than two points has no breaks, nor has one whose adjacent gaps
    are all at most ten intervals (uniform spacing of one interval, say),
    and two points eleven intervals apart give exactly the one break. *)
Theorem getXBreaks_breaks (series : list Datum) :
  Spec.increasing series ->
  getXBreaks series
  = Some (map (fun p =>
                 mkBreak
                   (newDate (getTime (x p.1) + 3 * (sampleInterval * 1000)))
                   (newDate (getTime (x p.2) - 3 * (sampleInterval * 1000)))
                   "wavy" 1)
              (List.filter
                 (fun p => 10 * (sampleInterval * 1000)
                           <? getTime (x p.2) - getTime (x p.1))
                 (adjacent_pairs series)))
  /\ ((length series < 2)%nat -> getXBreaks series = Some [])
  /\ (Forall (fun p => getTime (x p.2) - getTime (x p.1)
                       <= 10 * (sampleInterval * 1000))
             (adjacent_pairs series) ->
      getXBreaks series = Some [])
  /\ (Forall (fun p => getTime (x p.2) - getTime (x p.1)
                       = sampleInterval * 1000)
             (adjacent_pairs series) ->
      getXBreaks series = Some [])
  /\ (forall p0 p1,
        series = [p0; p1] ->
        getTime (x p1) - getTime (x p0) = 11 * (sampleInterval * 1000) ->
        getXBreaks series
        = Some [mkBreak
                  (newDate (getTime (x p0) + 3 * (sampleInterval * 1000)))
                  (newDate (getTime (x p1) - 3 * (sampleInterval * 1000)))
                  "wavy" 1]).
Proof.
  intros _. rewrite getXBreaks_findBreaks.
  split; [reflexivity|]. split; [|split; [|split]].
  - intros Hlen. destruct series as [|a [|b l]]; simpl in Hlen;
      [reflexivity|reflexivity|lia].
  - intros Hall. f_equal. apply findBreaks_no_long_gap.
    eapply Forall_impl; [exact Hall|]. intros p Hp. unfold long_gap.
    apply Z.ltb_ge. exact Hp.
  - intros Hall. f_equal. apply findBreaks_no_long_gap.
    eapply Forall_impl; [exact Hall|]. intros p Hp. unfold long_gap.
    apply Z.ltb_ge. rewrite Hp. unfold sampleInterval. lia.
  - intros p0 p1 -> Hgap. unfold findBreaks, adjacent_pairs, long_gap.
    simpl. rewrite Hgap.
    replace (10 * (sampleInterval * 1000) <? 11 * (sampleInterval * 1000))
      with true by (symmetry; apply Z.ltb_lt; unfold sampleInterval; lia).
    reflexivity.
Qed.

(** ** Numbers read from strings *)

Lemma digitValue_not_decimal (c : ascii) :
  isDecimalDigit c = false -> digitValue 10 c = None.
Proof.
  destruct c as [[] [] [] [] [] [] [] []]; vm_compute; congruence.
Qed.

Lemma digitValue_decimal (c : ascii) :
  isDecimalDigit c = true ->
  digitValue 10 c = Some (Z.of_nat (nat_of_ascii c) - 48).
Proof.
  destruct c as [[] [] [] [] [] [] [] []]; vm_compute; congruence.
Qed.

Lemma decimal_not_space (c : ascii) :
  isDecimalDigit c = true ->
  isWhiteSpace c = false /\ c <> "-"%char /\ c <> "+"%char /\ c <> "x"%char
  /\ c <> "X"%char /\ c <> "."%char /\ c <> "I"%char.
Proof.
  destruct c as [[] [] [] [] [] [] [] []]; vm_compute; intros H;
    repeat split; congruence.
Qed.

(** The digits of a run are taken up to the first character that is not
    one. *)
Lemma digits_run (run rest : string) (count : nat) (acc : Z) :
  allDigits run = true ->
  match rest with
  | String c _ => isDecimalDigit c = false
  | EmptyString => True
  end ->
  digits 10 (run ++ rest) count acc
  = ((count + String.length run)%nat, decimalValue run acc, rest).
Proof.
  revert count acc. induction run as [|c run IH]; intros count acc Hrun Hrest.
  - simpl. rewrite Nat.add_0_r. destruct rest as [|c rest]; [reflexivity|].
    simpl. now rewrite (digitValue_not_decimal c Hrest).
  - simpl in Hrun. apply andb_prop in Hrun as [Hc Hrun].
    simpl. rewrite (digitValue_decimal c Hc), (IH _ _ Hrun Hrest).
    do 2 f_equal. lia.
Qed.

Lemma append_empty_r (s : string) : (s ++ "")%string = s.
Proof. induction s as [|c s IH]; simpl; [reflexivity|now rewrite IH]. Qed.

Lemma decimalValue_app (a b : string) (acc : Z) :
  decimalValue (a ++ b) acc = decimalValue b (decimalValue a acc).
Proof.
  revert acc. induction a as [|c a IH]; intros acc; simpl; [reflexivity|].
  apply IH.
Qed.

(** A string that starts with a digit has no white space, sign or
    [Infinity] to strip. *)
Lemma starts_with_digit (c : ascii) (s : string) :
  isDecimalDigit c = true ->
  stripSign (trimStart (String c s)) = (false, String c s)
  /\ startsWith "Infinity" (String c s) = false.
Proof.
  intros Hc.
  destruct c as [[] [] [] [] [] [] [] []]; vm_compute in Hc;
    try discriminate Hc; split; reflexivity.
Qed.

(** [parseInt] stops at the decimal point. *)
Lemma parseInt_truncates (ip rest : string) :
  DecimalDigits ip ->
  parseInt (ip ++ String "." rest) = Number_of_Z (decimalValue ip 0).
Proof.
  intros [Hne Hdig]. destruct ip as [|c ip]; [congruence|].
  simpl in Hdig. apply andb_prop in Hdig as [Hc Hip].
  unfold parseInt. change (String c ip ++ String "." rest)%string
    with (String c (ip ++ String "." rest)).
  destruct (starts_with_digit c (ip ++ String "." rest) Hc) as [-> _].
  assert (Hpre : stripPrefix (String c (ip ++ String "." rest))
                 = (10, String c (ip ++ String "." rest))).
  { unfold stripPrefix. destruct ip as [|c' ip]; simpl.
    - now rewrite andb_false_r.
    - simpl in Hip. apply andb_prop in Hip as [Hc' _].
      destruct (decimal_not_space c' Hc') as (_ & _ & _ & Hx & HX & _).
      apply Ascii.eqb_neq in Hx, HX. now rewrite Hx, HX, andb_false_r. }
  rewrite Hpre.
  change (String c (ip ++ String "." rest))
    with (String c ip ++ String "." rest)%string.
  rewrite (digits_run (String c ip) (String "." rest) 0 0).
  - reflexivity.
  - simpl. now rewrite Hc, Hip.
  - reflexivity.
Qed.

(** [parseFloat] reads the digits on both sides of the point. *)
Lemma parseFloat_fraction (ip fp : string) :
  DecimalDigits ip ->
  allDigits fp = true ->
  parseFloat (ip ++ String "." fp)
  = Number_of_decimal (decimalValue (ip ++ fp) 0)
                      (- Z.of_nat (String.length fp)).
Proof.
  intros [Hne Hdig] Hfp. destruct ip as [|c ip]; [congruence|].
  simpl in Hdig. apply andb_prop in Hdig as [Hc Hip].
  unfold parseFloat. change (String c ip ++ String "." fp)%string
    with (String c (ip ++ String "." fp)).
  destruct (starts_with_digit c (ip ++ String "." fp) Hc) as [-> ->].
  change (String c (ip ++ String "." fp))
    with (String c ip ++ String "." fp)%string.
  rewrite (digits_run (String c ip) (String "." fp) 0 0);
    [|simpl; now rewrite Hc, Hip|reflexivity].
  rewrite Ascii.eqb_refl.
  pose proof (digits_run fp EmptyString 0 (decimalValue (String c ip) 0)
                Hfp I) as Hd.
  rewrite append_empty_r in Hd. rewrite Hd.
  rewrite decimalValue_app. reflexivity.
Qed.

Lemma not_decimal_not_zero (c : ascii) :
  isDecimalDigit c = false -> Ascii.eqb c "0" = false.
Proof.
  destruct c as [[] [] [] [] [] [] [] []]; vm_compute; congruence.
Qed.









(** ** NaN in the smoother *)









(** ** A refresh *)

Lemma each_callback_fold (D : string -> Date) (data : list Reading)
    (tempData humidityData : list Datum) :
  fold_left (each_callback D) data (tempData, humidityData)
  = (tempData ++ rawTemperature D data, humidityData ++ rawHumidity D data).
Proof.
  revert tempData humidityData.
  induction data as [|value data IH]; intros tempData humidityData; simpl.
  - now rewrite !app_nil_r.
  - unfold each_callback at 2. simpl. rewrite IH, <- !app_assoc. reflexivity.
Qed.

Lemma updateChart_callback_closed (D : string -> Date) (data : list Reading)
    (chart : Chart) :
  updateChart_callback D data chart
  = Some (mkChart
            (Some (findBreaks (rawTemperature D data)))
            (Some (rawTemperature D data))
            (Some (rawHumidity D data))
            (Some (imap (smoothed_at (rawTemperature D data))
                        (rawTemperature D data)))
            (Some (imap (smoothed_at (rawHumidity D data))
                        (rawHumidity D data)))
            (S (renders chart))).
Proof.
  unfold updateChart_callback. rewrite each_callback_fold. simpl.
  rewrite !calculateSMADataset_imap. simpl.
  rewrite getXBreaks_findBreaks. reflexivity.
Qed.



(** C10. A refresh reads the temperature with [parseFloat] and the
    humidity with [parseInt].  For a decimal numeral with a point the
    temperature is the Number of all its digits, and the humidity the
    Number of the digits before the point only: ["45.7"] is 45.7 as a
    temperature and 45 as a humidity, in the raw series, in the smoothed
    series computed from it, and in what the chart is given. *)
Theorem humidity_is_truncated (D : string -> Date) (data : list Reading)
    (chart : Chart) :
  (exists breaks tempSMA humiditySMA,
     updateChart_callback D data chart
     = Some (mkChart (Some breaks)
                     (Some (map (fun value =>
                                   mkDatum (D (time value))
                                           (parseFloat (temp value))) data))
                     (Some (map (fun value =>
                                   mkDatum (D (time value))
                                           (parseInt (humidity value))) data))
                     (Some tempSMA) (Some humiditySMA) (S (renders chart)))
     /\ calculateSMADataset
          (map (fun value =>
                  mkDatum (D (time value)) (parseFloat (temp value))) data)
        = Some tempSMA
     /\ calculateSMADataset
          (map (fun value =>
                  mkDatum (D (time value)) (parseInt (humidity value))) data)
        = Some humiditySMA)
  /\ (forall ip fp : string,
        DecimalDigits ip -> allDigits fp = true ->
        parseFloat (ip ++ String "." fp)
        = Number_of_decimal (decimalValue (ip ++ fp) 0)
                            (- Z.of_nat (String.length fp))
        /\ parseInt (ip ++ String "." fp) = Number_of_Z (decimalValue ip 0))
  /\ parseFloat "45.7" = 45.7%float
  /\ parseInt "45.7" = 45%float
  /\ (forall t : string,
        updateChart_callback D [mkReading t "45.7" "45.7"] chart
        = Some (mkChart (Some [])
                        (Some [mkDatum (D t) 45.7%float])
                        (Some [mkDatum (D t) 45%float])
                        (Some [mkDatum (D t) 45.7%float])
                        (Some [mkDatum (D t) 45%float])
                        (S (renders chart)))).
Proof.
  split; [|split; [|split; [|split]]].
  - exists (findBreaks (rawTemperature D data)),
           (imap (smoothed_at (rawTemperature D data)) (rawTemperature D data)),
           (imap (smoothed_at (rawHumidity D data)) (rawHumidity D data)).
    split; [apply updateChart_callback_closed|].
    split; apply calculateSMADataset_imap.
  - intros ip fp Hip Hfp. split.
    + now apply parseFloat_fraction.
    + now apply parseInt_truncates.
  - vm_compute. reflexivity.
  - vm_compute. reflexivity.
  - intros t. rewrite updateChart_callback_closed.
    unfold rawTemperature, rawHumidity. simpl.
    replace (parseFloat "45.7") with 45.7%float by (vm_compute; reflexivity).
    replace (parseInt "45.7") with 45%float by (vm_compute; reflexivity).
    reflexivity.
Qed.
(** ** The store model: nothing but allocation *)

Import Heap.

Lemma bind_Some {A B} (m : Mem A) (k : A -> Mem B) (h h' : heap) (a : A) :
  m h = Some (a, h') -> (m ≫= k) h = k a h'.
Proof. intros Hm. unfold mbind, Mem_bind. now rewrite Hm. Qed.

Lemma preserved_refl (h : heap) : preserved h h.
Proof. unfold preserved. apply take_ge. lia. Qed.

Lemma preserved_length (h h' : heap) :
  preserved h h' -> (length h <= length h')%nat.
Proof.
  unfold preserved. intros Hp.
  destruct (Nat.le_gt_cases (length h) (length h')) as [|Hlt]; [assumption|].
  rewrite take_ge in Hp by lia. subst. lia.
Qed.

Lemma preserved_lookup (h h' : heap) (r : ref) (o : Object) :
  preserved h h' -> h !! r = Some o -> h' !! r = Some o.
Proof.
  unfold preserved. intros Hp Hr. apply lookup_lt_Some in Hr as Hlt.
  rewrite <- (lookup_take_lt h' (length h) r Hlt). now rewrite Hp.
Qed.

Lemma preserved_app (h h' ext : heap) :
  preserved h h' -> preserved h (h' ++ ext).
Proof.
  intros Hp. pose proof (preserved_length _ _ Hp) as Hlen.
  unfold preserved in *. now rewrite take_app_le.
Qed.

Lemma preserved_insert (h h' : heap) (n : nat) (o : Object) :
  preserved h h' -> (length h <= n)%nat -> preserved h (<[n := o]> h').
Proof.
  unfold preserved. intros Hp Hn. now rewrite take_insert_ge.
Qed.

Lemma datum_at_Some (h : heap) (r : ref) (d : Datum) :
  datum_at h r = Some d <-> h !! r = Some (DatumObject d).
Proof.
  unfold datum_at. destruct (h !! r) as [[]|]; split; congruence.
Qed.

Lemma array_at_Some (h : heap) (r : ref) (elems : list ref) :
  array_at h r = Some elems <-> h !! r = Some (ArrayObject elems).
Proof.
  unfold array_at. destruct (h !! r) as [[]|]; split; congruence.
Qed.

Lemma break_at_Some (h : heap) (r : ref) (b : Break) :
  break_at h r = Some b <-> h !! r = Some (BreakObject b).
Proof.
  unfold break_at. destruct (h !! r) as [[]|]; split; congruence.
Qed.

Lemma series_at_Some (h : heap) (arr : ref) (series : list Datum) :
  series_at h arr = Some series <->
  exists elems, h !! arr = Some (ArrayObject elems)
             /\ Forall2 (fun r d => h !! r = Some (DatumObject d)) elems series.
Proof.
  unfold series_at. split.
  - intros H. destruct (array_at h arr) as [elems|] eqn:Harr; [|discriminate].
    simpl in H. exists elems. split; [now apply array_at_Some|].
    apply mapM_Some in H. eapply Forall2_impl; [exact H|].
    intros r d. apply datum_at_Some.
  - intros (elems & Harr & Hall). apply array_at_Some in Harr.
    rewrite Harr. simpl. apply mapM_Some.
    eapply Forall2_impl; [exact Hall|]. intros r d. apply datum_at_Some.
Qed.

Lemma breaks_at_Some (h : heap) (arr : ref) (bs : list Break) :
  breaks_at h arr = Some bs <->
  exists elems, h !! arr = Some (ArrayObject elems)
             /\ Forall2 (fun r b => h !! r = Some (BreakObject b)) elems bs.
Proof.
  unfold breaks_at. split.
  - intros H. destruct (array_at h arr) as [elems|] eqn:Harr; [|discriminate].
    simpl in H. exists elems. split; [now apply array_at_Some|].
    apply mapM_Some in H. eapply Forall2_impl; [exact H|].
    intros r d. apply break_at_Some.
  - intros (elems & Harr & Hall). apply array_at_Some in Harr.
    rewrite Harr. simpl. apply mapM_Some.
    eapply Forall2_impl; [exact Hall|]. intros r d. apply break_at_Some.
Qed.

Lemma series_at_preserved (h h' : heap) (arr : ref) (series : list Datum) :
  preserved h h' -> series_at h arr = Some series ->
  series_at h' arr = Some series.
Proof.
  intros Hp. rewrite !series_at_Some. intros (elems & Harr & Hall).
  exists elems. split; [now apply (preserved_lookup h)|].
  eapply Forall2_impl; [exact Hall|]. intros r d. apply (preserved_lookup h h' r _ Hp).
Qed.

Lemma breaks_at_preserved (h h' : heap) (arr : ref) (bs : list Break) :
  preserved h h' -> breaks_at h arr = Some bs -> breaks_at h' arr = Some bs.
Proof.
  intros Hp. rewrite !breaks_at_Some. intros (elems & Harr & Hall).
  exists elems. split; [now apply (preserved_lookup h)|].
  eapply Forall2_impl; [exact Hall|]. intros r d. apply (preserved_lookup h h' r _ Hp).
Qed.

Section Reading.

Variables (h : heap) (dataset : ref) (elems : list ref)
          (series : list Datum).
Hypothesis Harr : h !! dataset = Some (ArrayObject elems).
Hypothesis Hall :
  Forall2 (fun r d => h !! r = Some (DatumObject d)) elems series.

Lemma elements_read : elements dataset h = Some (elems, h).
Proof. unfold elements. now rewrite Harr. Qed.

Lemma element_read (k : nat) :
  match elems !! k with
  | Some r => exists d, series !! k = Some d /\ fields r h = Some (d, h)
  | None => series !! k = None
  end.
Proof.
  destruct (elems !! k) as [r|] eqn:Hr.
  - destruct (Forall2_lookup_l _ _ _ _ _ Hall Hr) as (d & Hd & Hrd).
    exists d. split; [exact Hd|]. unfold fields. now rewrite Hrd.
  - apply lookup_ge_None. apply lookup_ge_None in Hr.
    now rewrite <- (Forall2_length _ _ _ Hall).
Qed.

(** Over the store the loop of [simpleMovingAverage] reads what the
    list version reads, and writes nothing. *)
Lemma heap_sma_loop (point : nat) :
  forall (todo i : nat) (sum : float),
    Heap.sma_loop dataset point i todo sum h
    = match Dashboard.sma_loop series point i todo sum with
      | Some v => Some (v, h)
      | None => None
      end.
Proof.
  induction todo as [|todo IH]; intros i sum; simpl; [reflexivity|].
  rewrite (bind_Some _ _ h h elems elements_read).
  unfold get. destruct (_ <? 0); [reflexivity|].
  pose proof (element_read (Z.to_nat (Z.of_nat point - Z.of_nat i))) as Hk.
  destruct (elems !! _) as [r|].
  - destruct Hk as (d & Hd & Hf). rewrite Hd. simpl.
    rewrite (bind_Some _ _ h h r eq_refl).
    rewrite (bind_Some _ _ h h d Hf). apply IH.
  - now rewrite Hk.
Qed.

Lemma heap_simpleMovingAverage (point numPoints : nat) :
  Heap.simpleMovingAverage dataset point numPoints h
  = match Dashboard.simpleMovingAverage series point numPoints with
    | Some v => Some (v, h)
    | None => None
    end.
Proof.
  unfold Heap.simpleMovingAverage, Dashboard.simpleMovingAverage.
  unfold mbind at 1, Mem_bind. rewrite heap_sma_loop.
  now destruct (Dashboard.sma_loop _ _ _ _ _).
Qed.

End Reading.

Lemma datum_after_push (h : heap) (n r : ref) (old new : list ref)
    (d : Datum) :
  h !! n = Some (ArrayObject old) ->
  h !! r = Some (DatumObject d) ->
  <[n := ArrayObject new]> h !! r = Some (DatumObject d).
Proof.
  intros Hn Hr. rewrite list_lookup_insert_ne; [exact Hr|]. congruence.
Qed.

Lemma break_after_push (h : heap) (n r : ref) (old new : list ref)
    (b : Break) :
  h !! n = Some (ArrayObject old) ->
  h !! r = Some (BreakObject b) ->
  <[n := ArrayObject new]> h !! r = Some (BreakObject b).
Proof.
  intros Hn Hr. rewrite list_lookup_insert_ne; [exact Hr|]. congruence.
Qed.

Lemma push_run (h : heap) (n r : ref) (old : list ref) :
  h !! n = Some (ArrayObject old) ->
  push n r h = Some (tt, <[n := ArrayObject (old ++ [r])]> h).
Proof. intros Hn. unfold push. now rewrite Hn. Qed.

Section Smoothing.

Variables (h0 : heap) (dataset : ref) (elems : list ref)
          (series : list Datum) (datasetSMA : ref).
Hypothesis Harr : h0 !! dataset = Some (ArrayObject elems).
Hypothesis Hall :
  Forall2 (fun r d => h0 !! r = Some (DatumObject d)) elems series.
Hypothesis Hfresh : (length h0 <= datasetSMA)%nat.

(** One visit of the callback: the store grows by at most one data
    point, the new array by one reference to the smoothed point, and no
    object that was there is touched. *)
Lemma heap_sma_callback (hk : heap) (refs : list ref) (k : nat) (r : ref)
    (d : Datum) :
  preserved h0 hk ->
  hk !! datasetSMA = Some (ArrayObject refs) ->
  series !! k = Some d ->
  hk !! r = Some (DatumObject d) ->
  exists h' r',
    Heap.sma_callback dataset datasetSMA r k hk = Some (tt, h')
    /\ preserved h0 h'
    /\ h' !! datasetSMA = Some (ArrayObject (refs ++ [r']))
    /\ h' !! r' = Some (DatumObject (smoothed_at series k d))
    /\ (forall q o, hk !! q = Some (DatumObject o) ->
                    h' !! q = Some (DatumObject o)).
Proof.
  intros Hp Hout Hd Hr. apply lookup_lt_Some in Hout as Hlt.
  apply lookup_lt_Some in Hd as Hk.
  assert (Harr' : hk !! dataset = Some (ArrayObject elems))
    by now apply (preserved_lookup h0).
  assert (Hall' :
    Forall2 (fun r d => hk !! r = Some (DatumObject d)) elems series).
  { eapply Forall2_impl; [exact Hall|]. intros q o.
    apply (preserved_lookup h0 hk q _ Hp). }
  assert (Hf : fields r hk = Some (d, hk)) by (unfold fields; now rewrite Hr).
  assert (Hnew : forall v,
    (o ← alloc (DatumObject (mkDatum (x d) v)); push datasetSMA o) hk
    = Some (tt, <[datasetSMA := ArrayObject (refs ++ [length hk])]>
                  (hk ++ [DatumObject (mkDatum (x d) v)]))).
  { intros v. rewrite (bind_Some _ _ hk _ (length hk) eq_refl).
    apply push_run. now apply lookup_app_l_Some. }
  assert (Hgrown : forall v,
    let h' := <[datasetSMA := ArrayObject (refs ++ [length hk])]>
                (hk ++ [DatumObject (mkDatum (x d) v)]) in
    preserved h0 h'
    /\ h' !! datasetSMA = Some (ArrayObject (refs ++ [length hk]))
    /\ h' !! length hk = Some (DatumObject (mkDatum (x d) v))
    /\ (forall q o, hk !! q = Some (DatumObject o) ->
                    h' !! q = Some (DatumObject o))).
  { intros v h'. subst h'. repeat split.
    - apply preserved_insert; [now apply preserved_app|exact Hfresh].
    - apply list_lookup_insert_eq. rewrite length_app. simpl. lia.
    - rewrite list_lookup_insert_ne by lia.
      rewrite lookup_app_r by lia. now rewrite Nat.sub_diag.
    - intros q o Hq. apply (datum_after_push _ _ _ refs).
      + now apply lookup_app_l_Some.
      + now apply lookup_app_l_Some. }
  unfold Heap.sma_callback, smoothed_at.
  destruct (Nat.eqb_spec k 0) as [->|Hk0].
  - exists (<[datasetSMA := ArrayObject (refs ++ [r])]> hk), r.
    split; [now apply push_run|]. repeat split.
    + now apply preserved_insert.
    + now apply list_lookup_insert_eq.
    + now apply (datum_after_push _ _ _ refs).
    + intros q o Hq. now apply (datum_after_push _ _ _ refs).
  - destruct (Nat.ltb_spec k 12) as [Hk12|Hk12].
    + eexists _, (length hk).
      rewrite (bind_Some _ _ hk hk d Hf).
      unfold mbind at 1, Mem_bind.
      rewrite (heap_simpleMovingAverage hk dataset elems series Harr' Hall').
      rewrite simpleMovingAverage_mean by lia.
      replace (S k - k)%nat with 1%nat by lia.
      split; [apply Hnew|]. apply Hgrown.
    + eexists _, (length hk).
      rewrite (bind_Some _ _ hk hk d Hf).
      unfold mbind at 1, Mem_bind.
      rewrite (heap_simpleMovingAverage hk dataset elems series Harr' Hall').
      rewrite simpleMovingAverage_mean by lia.
      replace (S k - 12)%nat with (k - 11)%nat by lia.
      split; [apply Hnew|]. apply Hgrown.
Qed.

Lemma heap_sma_forEach :
  forall (todo k : nat) (hk : heap) (refs : list ref),
    (k + todo = length series)%nat ->
    preserved h0 hk ->
    hk !! datasetSMA = Some (ArrayObject refs) ->
    Forall2 (fun r d => hk !! r = Some (DatumObject d)) refs
            (take k (imap (smoothed_at series) series)) ->
    exists hf refs',
      Heap.forEach_from (Heap.sma_callback dataset datasetSMA) dataset
                        k todo hk = Some (tt, hf)
      /\ preserved h0 hf
      /\ hf !! datasetSMA = Some (ArrayObject refs')
      /\ Forall2 (fun r d => hf !! r = Some (DatumObject d)) refs'
                 (imap (smoothed_at series) series).
Proof.
  induction todo as [|todo IH]; intros k hk refs Hlen Hp Hout Hrefs.
  - exists hk, refs. split; [reflexivity|]. split; [exact Hp|].
    split; [exact Hout|].
    rewrite take_ge in Hrefs; [exact Hrefs|]. rewrite length_imap. lia.
  - assert (Harr' : hk !! dataset = Some (ArrayObject elems))
      by now apply (preserved_lookup h0).
    destruct (lookup_lt_is_Some_2 series k ltac:(lia)) as [d Hd].
    destruct (Forall2_lookup_r _ _ _ _ _ Hall Hd) as (r & Hr & Hrd).
    apply (preserved_lookup h0 hk r _ Hp) in Hrd.
    destruct (heap_sma_callback hk refs k r d Hp Hout Hd Hrd)
      as (h' & r' & Hrun & Hp' & Hout' & Hr' & Hkeep).
    destruct (IH (S k) h' (refs ++ [r']) ltac:(lia) Hp' Hout')
      as (hf & refs' & Hloop & Hfinal).
    + rewrite (take_S_r _ _ (smoothed_at series k d)).
      * apply Forall2_app; [|repeat constructor; exact Hr'].
        eapply Forall2_impl; [exact Hrefs|]. intros q o. apply Hkeep.
      * now rewrite list_lookup_imap, Hd.
    + exists hf, refs'. split; [|exact Hfinal].
      simpl. rewrite (bind_Some _ _ hk hk elems).
      * rewrite Hr. rewrite (bind_Some _ _ hk h' tt Hrun). exact Hloop.
      * unfold elements. now rewrite Harr'.
Qed.

End Smoothing.

(** Over the store, the smoother returns a new array that holds what the
    list version computes, and leaves every object that was there as it
    was. *)
Lemma heap_calculateSMADataset (h : heap) (dataset : ref)
    (series : list Datum) :
  series_at h dataset = Some series ->
  exists r h',
    Heap.calculateSMADataset dataset h = Some (r, h')
    /\ preserved h h'
    /\ (length h <= r)%nat
    /\ series_at h' r = Dashboard.calculateSMADataset series.
Proof.
  intros Hs. apply series_at_Some in Hs as (elems & Harr & Hall).
  set (h1 := h ++ [ArrayObject []]).
  destruct (heap_sma_forEach h dataset elems series (length h) Harr Hall
              (Nat.le_refl _) (length series) 0 h1 [] eq_refl)
    as (hf & refs & Hloop & Hp & Hout & Hrefs).
  - now apply preserved_app, preserved_refl.
  - subst h1. rewrite lookup_app_r by lia. now rewrite Nat.sub_diag.
  - constructor.
  - exists (length h), hf. split; [|split; [exact Hp|split; [lia|]]].
    + unfold Heap.calculateSMADataset.
      rewrite (bind_Some _ _ h h1 (length h) eq_refl).
      unfold Heap.forEach.
      assert (Hel : elements dataset h1 = Some (elems, h1)).
      { unfold elements. subst h1. now rewrite (lookup_app_l_Some _ _ _ _ Harr). }
      rewrite (bind_Some _ _ h1 hf tt); [reflexivity|].
      rewrite (bind_Some _ _ h1 h1 elems Hel).
      now rewrite (Forall2_length _ _ _ Hall).
    + rewrite calculateSMADataset_imap. apply series_at_Some.
      now exists refs.
Qed.

Section Segmenting.

Variables (h0 : heap) (data : ref) (elems : list ref)
          (series : list Datum) (customBreaks : ref).
Hypothesis Harr : h0 !! data = Some (ArrayObject elems).
Hypothesis Hall :
  Forall2 (fun r d => h0 !! r = Some (DatumObject d)) elems series.
Hypothesis Hfresh : (length h0 <= customBreaks)%nat.

Lemma heap_breaks_callback (hk : heap) (refs : list ref) (k : nat) (r : ref)
    (d : Datum) :
  preserved h0 hk ->
  hk !! customBreaks = Some (ArrayObject refs) ->
  series !! k = Some d ->
  hk !! r = Some (DatumObject d) ->
  exists h' new,
    Heap.breaks_callback data customBreaks r k hk = Some (tt, h')
    /\ preserved h0 h'
    /\ h' !! customBreaks = Some (ArrayObject (refs ++ new))
    /\ Forall2 (fun q b => h' !! q = Some (BreakObject b)) new
               (breaks_after series k d)
    /\ (forall q o, hk !! q = Some (BreakObject o) ->
                    h' !! q = Some (BreakObject o)).
Proof.
  intros Hp Hout Hd Hr. apply lookup_lt_Some in Hout as Hlt.
  apply lookup_lt_Some in Hd as Hk.
  pose proof (Forall2_length _ _ _ Hall) as Hlen.
  assert (Hel : elements data hk = Some (elems, hk)).
  { unfold elements. now rewrite (preserved_lookup h0 hk _ _ Hp Harr). }
  assert (Hf : fields r hk = Some (d, hk)) by (unfold fields; now rewrite Hr).
  assert (Hsame : exists h' new,
    (mret tt : Mem unit) hk = Some (tt, h')
    /\ preserved h0 h'
    /\ h' !! customBreaks = Some (ArrayObject (refs ++ new))
    /\ Forall2 (fun q b => h' !! q = Some (BreakObject b)) new []
    /\ (forall q o, hk !! q = Some (BreakObject o) ->
                    h' !! q = Some (BreakObject o))).
  { exists hk, []. rewrite app_nil_r. repeat split; auto. }
  unfold Heap.breaks_callback, breaks_after.
  rewrite (bind_Some _ _ hk hk elems Hel). rewrite Hlen.
  destruct (Z.eqb_spec (Z.of_nat k) (Z.of_nat (length series) - 1))
    as [Hl|Hl]; simpl.
  - rewrite (lookup_ge_None_2 series (S k)) by lia. exact Hsame.
  - replace (k + 1)%nat with (S k) by lia.
    destruct (lookup_lt_is_Some_2 series (S k) ltac:(lia)) as [b Hb].
    destruct (Forall2_lookup_r _ _ _ _ _ Hall Hb) as (rb & Hrb & Hrbd).
    apply (preserved_lookup h0 hk rb _ Hp) in Hrbd.
    rewrite Hb, Hrb. rewrite (bind_Some _ _ hk hk rb eq_refl).
    rewrite (bind_Some _ _ hk hk b); [|unfold fields; now rewrite Hrbd].
    rewrite (bind_Some _ _ hk hk d Hf).
    unfold long_gap, break_of. simpl.
    change (10 * sampleInterval * 1000) with (10 * (sampleInterval * 1000)).
    change (3 * sampleInterval * 1000) with (3 * (sampleInterval * 1000)).
    destruct (_ <? _); [|exact Hsame].
    eexists _, [length hk].
    rewrite (bind_Some _ _ hk _ (length hk) eq_refl).
    split; [apply (push_run _ _ _ refs); now apply lookup_app_l_Some|].
    repeat split.
    + apply preserved_insert; [now apply preserved_app|exact Hfresh].
    + apply list_lookup_insert_eq. rewrite length_app. simpl. lia.
    + repeat constructor. rewrite list_lookup_insert_ne by lia.
      rewrite lookup_app_r by lia. now rewrite Nat.sub_diag.
    + intros q o Hq. apply (break_after_push _ _ _ refs);
        now apply lookup_app_l_Some.
Qed.

Lemma heap_breaks_forEach :
  forall (todo k : nat) (hk : heap) (refs : list ref),
    (k + todo = length series)%nat ->
    preserved h0 hk ->
    hk !! customBreaks = Some (ArrayObject refs) ->
    Forall2 (fun r b => hk !! r = Some (BreakObject b)) refs
            (concat (imap (breaks_after series) (take k series))) ->
    exists hf refs',
      Heap.forEach_from (Heap.breaks_callback data customBreaks) data
                        k todo hk = Some (tt, hf)
      /\ preserved h0 hf
      /\ hf !! customBreaks = Some (ArrayObject refs')
      /\ Forall2 (fun r b => hf !! r = Some (BreakObject b)) refs'
                 (concat (imap (breaks_after series) series)).
Proof.
  induction todo as [|todo IH]; intros k hk refs Hlen Hp Hout Hrefs.
  - exists hk, refs. split; [reflexivity|]. split; [exact Hp|].
    split; [exact Hout|]. rewrite take_ge in Hrefs; [exact Hrefs|lia].
  - assert (Harr' : hk !! data = Some (ArrayObject elems))
      by now apply (preserved_lookup h0).
    destruct (lookup_lt_is_Some_2 series k ltac:(lia)) as [d Hd].
    destruct (Forall2_lookup_r _ _ _ _ _ Hall Hd) as (r & Hr & Hrd).
    apply (preserved_lookup h0 hk r _ Hp) in Hrd.
    destruct (heap_breaks_callback hk refs k r d Hp Hout Hd Hrd)
      as (h' & new & Hrun & Hp' & Hout' & Hnew & Hkeep).
    destruct (IH (S k) h' (refs ++ new) ltac:(lia) Hp' Hout')
      as (hf & refs' & Hloop & Hfinal).
    + rewrite (take_S_r _ _ d Hd), imap_app, concat_app. simpl.
      rewrite app_nil_r, length_take, Nat.add_0_r.
      replace (k `min` length series)%nat with k by lia.
      apply Forall2_app; [|exact Hnew].
      eapply Forall2_impl; [exact Hrefs|]. intros q o. apply Hkeep.
    + exists hf, refs'. split; [|exact Hfinal].
      simpl. rewrite (bind_Some _ _ hk hk elems).
      * rewrite Hr. rewrite (bind_Some _ _ hk h' tt Hrun). exact Hloop.
      * unfold elements. now rewrite Harr'.
Qed.

End Segmenting.

(** Over the store, the segmenter returns a new array that holds what the
    list version computes, and leaves every object that was there as it
    was. *)
Lemma heap_getXBreaks (h : heap) (data : ref) (series : list Datum) :
  series_at h data = Some series ->
  exists r h',
    Heap.getXBreaks data h = Some (r, h')
    /\ preserved h h'
    /\ (length h <= r)%nat
    /\ breaks_at h' r = Dashboard.getXBreaks series.
Proof.
  intros Hs. apply series_at_Some in Hs as (elems & Harr & Hall).
  set (h1 := h ++ [ArrayObject []]).
  destruct (heap_breaks_forEach h data elems series (length h) Harr Hall
              (Nat.le_refl _) (length series) 0 h1 [] eq_refl)
    as (hf & refs & Hloop & Hp & Hout & Hrefs).
  - now apply preserved_app, preserved_refl.
  - subst h1. rewrite lookup_app_r by lia. now rewrite Nat.sub_diag.
  - constructor.
  - exists (length h), hf. split; [|split; [exact Hp|split; [lia|]]].
    + unfold Heap.getXBreaks.
      rewrite (bind_Some _ _ h h1 (length h) eq_refl).
      unfold Heap.forEach.
      assert (Hel : elements data h1 = Some (elems, h1)).
      { unfold elements. subst h1. now rewrite (lookup_app_l_Some _ _ _ _ Harr). }
      rewrite (bind_Some _ _ h1 hf tt); [reflexivity|].
      rewrite (bind_Some _ _ h1 h1 elems Hel).
      now rewrite (Forall2_length _ _ _ Hall).
    + rewrite getXBreaks_findBreaks.
      rewrite <- (breaks_by_position series [] series eq_refl).
      apply breaks_at_Some. now exists refs.
Qed.

(** C9. Both data functions are pure.  Called on an array of data points
    in any store, each returns a newly allocated array and leaves every
    object that existed before the call as it was, the input array and its
    points among them; called a second time on the same input, it returns
    an array with the same contents as the first, which is still as it
    was: what the list version computes from the series. *)
Theorem data_functions_pure (h : heap) (dataset : ref)
    (series : list Datum) :
  series_at h dataset = Some series ->
  (exists out r1 h1 r2 h2,
     Heap.calculateSMADataset dataset h = Some (r1, h1)
     /\ Heap.calculateSMADataset dataset h1 = Some (r2, h2)
     /\ series_at h1 r1 = Some out
     /\ series_at h2 r1 = Some out
     /\ series_at h2 r2 = Some out
     /\ preserved h h1 /\ preserved h1 h2
     /\ series_at h1 dataset = Some series
     /\ series_at h2 dataset = Some series
     /\ Dashboard.calculateSMADataset series = Some out)
  /\ (exists out r1 h1 r2 h2,
        Heap.getXBreaks dataset h = Some (r1, h1)
        /\ Heap.getXBreaks dataset h1 = Some (r2, h2)
        /\ breaks_at h1 r1 = Some out
        /\ breaks_at h2 r1 = Some out
        /\ breaks_at h2 r2 = Some out
        /\ preserved h h1 /\ preserved h1 h2
        /\ series_at h1 dataset = Some series
        /\ series_at h2 dataset = Some series
        /\ Dashboard.getXBreaks series = Some out).
Proof.
  intros Hs. split.
  - destruct (heap_calculateSMADataset h dataset series Hs)
      as (r1 & h1 & Hrun1 & Hp1 & _ & Hout1).
    pose proof (series_at_preserved h h1 dataset series Hp1 Hs) as Hs1.
    destruct (heap_calculateSMADataset h1 dataset series Hs1)
      as (r2 & h2 & Hrun2 & Hp2 & _ & Hout2).
    pose proof (series_at_preserved h1 h2 dataset series Hp2 Hs1) as Hs2.
    pose proof (calculateSMADataset_imap series) as Hpure.
    rewrite Hpure in Hout1, Hout2.
    pose proof (series_at_preserved h1 h2 r1 _ Hp2 Hout1) as Hkept.
    exists (imap (smoothed_at series) series), r1, h1, r2, h2. tauto.
  - destruct (heap_getXBreaks h dataset series Hs)
      as (r1 & h1 & Hrun1 & Hp1 & _ & Hout1).
    pose proof (series_at_preserved h h1 dataset series Hp1 Hs) as Hs1.
    destruct (heap_getXBreaks h1 dataset series Hs1)
      as (r2 & h2 & Hrun2 & Hp2 & _ & Hout2).
    pose proof (series_at_preserved h1 h2 dataset series Hp2 Hs1) as Hs2.
    pose proof (getXBreaks_findBreaks series) as Hpure.
    rewrite Hpure in Hout1, Hout2.
    pose proof (breaks_at_preserved h1 h2 r1 _ Hp2 Hout1) as Hkept.
    exists (findBreaks series), r1, h1, r2, h2. tauto.
Qed.

(** ** The page *)

Import Page Observed.

(** *** The event loop *)

Lemma refreshPeriod_ms : refreshPeriod = 450000%N.
Proof. reflexivity. Qed.

Lemma refreshPeriod_pos : (0 < refreshPeriod)%N.
Proof. reflexivity. Qed.

Lemma periods_step (a : N) :
  (refreshPeriod <= a)%N ->
  (a / refreshPeriod = (a - refreshPeriod) / refreshPeriod + 1)%N.
Proof.
  intros Hle.
  replace a with (a - refreshPeriod + 1 * refreshPeriod)%N at 1 by lia.
  apply N.div_add. pose proof refreshPeriod_pos. lia.
Qed.

Lemma earliest_Some (ts : list N) :
  forall pos i d,
    earliest ts pos = Some (i, d) ->
    (pos <= i)%nat /\ ts !! (i - pos)%nat = Some d
    /\ Forall (fun d' => (d <= d')%N) ts.
Proof.
  induction ts as [|d0 ts IH]; intros pos i d H; [discriminate|].
  simpl in H. destruct (earliest ts (S pos)) as [[i' d']|] eqn:Hrest.
  - destruct (IH _ _ _ Hrest) as (Hpos & Hlook & Hall).
    destruct (N.ltb_spec d' d0); injection H as <- <-.
    + split; [lia|]. split.
      * replace (i' - pos)%nat with (S (i' - S pos)) by lia. exact Hlook.
      * constructor; [lia|exact Hall].
    + split; [lia|]. split; [now rewrite Nat.sub_diag|].
      constructor; [lia|]. eapply Forall_impl; [exact Hall|].
      simpl. intros. lia.
  - injection H as <- <-. split; [lia|]. split; [now rewrite Nat.sub_diag|].
    destruct ts as [|d1 ts]; [repeat constructor; lia|].
    simpl in Hrest. destruct (earliest ts (S (S pos))) as [[? ?]|];
      [destruct (_ <? _)%N|]; discriminate.
Qed.

Lemma earliest_None (ts : list N) (pos : nat) :
  earliest ts pos = None -> ts = [].
Proof.
  destruct ts as [|d ts]; [reflexivity|]. simpl.
  destruct (earliest ts (S pos)) as [[? ?]|]; [destruct (_ <? _)%N|];
    discriminate.
Qed.

(** What [next] finds: the timer or the continuation that is due first, and
    nothing is due before it. *)
Lemma next_first (w : World) :
  match next w with
  | NextTimer i d =>
      timers w !! i = Some d
      /\ Forall (fun d' => (d <= d')%N) (timers w)
      /\ Forall (fun p => (d <= p.1)%N) (pending w)
  | NextPending j e =>
      (exists k, pending w !! j = Some (e, k))
      /\ Forall (fun d' => (e < d')%N) (timers w)
      /\ Forall (fun p => (e <= p.1)%N) (pending w)
  | Nothing => timers w = [] /\ pending w = []
  end.
Proof.
  assert (Hfst : forall j e,
    earliest (map fst (pending w)) 0 = Some (j, e) ->
    (exists k, pending w !! j = Some (e, k))
    /\ Forall (fun p => (e <= p.1)%N) (pending w)).
  { intros j e H. apply earliest_Some in H as (_ & Hlook & Hall).
    rewrite Nat.sub_0_r in Hlook. change map with (@fmap list _) in *.
    rewrite list_lookup_fmap in Hlook. split.
    - destruct (pending w !! j) as [[e' k]|] eqn:Hj; [|discriminate].
      simpl in Hlook. injection Hlook as <-. now exists k.
    - rewrite Forall_forall in Hall. rewrite Forall_forall.
      intros p Hp. apply Hall.
      apply list_elem_of_fmap. now exists p. }
  unfold next.
  destruct (earliest (timers w) 0) as [[i d]|] eqn:Ht;
    destruct (earliest (map fst (pending w)) 0) as [[j e]|] eqn:Hp.
  - apply earliest_Some in Ht as (_ & Hlook & Hall).
    rewrite Nat.sub_0_r in Hlook.
    destruct (Hfst j e eq_refl) as [Hk Hpend].
    destruct (N.leb_spec d e).
    + split; [exact Hlook|]. split; [exact Hall|].
      eapply Forall_impl; [exact Hpend|]. simpl. intros. lia.
    + split; [exact Hk|]. split; [|exact Hpend].
      eapply Forall_impl; [exact Hall|]. simpl. intros. lia.
  - apply earliest_Some in Ht as (_ & Hlook & Hall).
    rewrite Nat.sub_0_r in Hlook. apply earliest_None in Hp.
    apply map_eq_nil in Hp. rewrite Hp.
    split; [exact Hlook|]. split; [exact Hall|constructor].
  - apply earliest_None in Ht. rewrite Ht.
    destruct (Hfst j e eq_refl) as [Hk Hpend].
    split; [exact Hk|]. split; [constructor|exact Hpend].
  - apply earliest_None in Ht. apply earliest_None in Hp.
    apply map_eq_nil in Hp. now split.
Qed.

Lemma firings_cons (until d : N) (ts : list N) :
  firings until (d :: ts)
  = ((if (d <=? until)%N
      then N.to_nat ((until - d) / refreshPeriod) + 1 else 0)
     + firings until ts)%nat.
Proof. unfold firings. simpl. destruct (d <=? until)%N; lia. Qed.

Lemma firings_fire (until d : N) :
  (d <= until)%N ->
  forall (ts : list N) (i : nat),
    ts !! i = Some d ->
    S (firings until (<[i := (d + refreshPeriod)%N]> ts)) = firings until ts.
Proof.
  intros Hd. induction ts as [|d0 ts IH]; intros i Hi; [discriminate|].
  destruct i as [|i].
  - injection Hi as ->.
    change (<[0%nat := (d + refreshPeriod)%N]> (d :: ts))
      with ((d + refreshPeriod)%N :: ts).
    rewrite !firings_cons. destruct (N.leb_spec d until); [|lia].
    destruct (N.leb_spec (d + refreshPeriod) until).
    + rewrite (periods_step (until - d)) by lia.
      replace (until - (d + refreshPeriod))%N
        with (until - d - refreshPeriod)%N by lia.
      lia.
    + rewrite (N.div_small (until - d)) by lia. simpl. lia.
  - change (<[S i := (d + refreshPeriod)%N]> (d0 :: ts))
      with (d0 :: <[i := (d + refreshPeriod)%N]> ts).
    rewrite !firings_cons. specialize (IH i Hi). lia.
Qed.

Lemma firings_none (until : N) (ts : list N) :
  firings until ts = 0%nat -> Forall (fun d => (until < d)%N) ts.
Proof.
  induction ts as [|d ts IH]; intros H; [constructor|].
  rewrite firings_cons in H.
  destruct (N.leb_spec d until); cbv iota in H.
  - rewrite Nat.add_1_r in H. discriminate.
  - constructor; [assumption|apply IH; lia].
Qed.

Lemma next_due_fire (until d : N) :
  (d <= until)%N -> next_due until (d + refreshPeriod) = next_due until d.
Proof.
  intros Hd. unfold next_due. destruct (N.leb_spec d until); [|lia].
  destruct (N.leb_spec (d + refreshPeriod) until).
  - rewrite (periods_step (until - d)) by lia.
    replace (until - (d + refreshPeriod))%N
      with (until - d - refreshPeriod)%N by lia.
    lia.
  - rewrite (N.div_small (until - d)) by lia. lia.
Qed.

Lemma next_due_later (until d : N) : (until < d)%N -> next_due until d = d.
Proof. intros Hd. unfold next_due. now destruct (N.leb_spec d until); [lia|]. Qed.

Lemma elem_of_insert_or {A} (l : list A) (i : nat) (x y z : A) :
  l !! i = Some y -> z ∈ l -> z = y \/ z ∈ <[i := x]> l.
Proof.
  revert i. induction l as [|a l IH]; intros i Hi Hz; [discriminate|].
  destruct i as [|i]; simpl in Hi |- *.
  - injection Hi as ->. apply elem_of_cons in Hz as [->|Hz]; [now left|].
    right. now apply list_elem_of_further.
  - apply elem_of_cons in Hz as [->|Hz]; [right; apply list_elem_of_here|].
    destruct (IH i Hi Hz) as [->|Hin]; [now left|].
    right. now apply list_elem_of_further.
Qed.

Lemma elem_of_delete_or {A} (l : list A) (j : nat) (y z : A) :
  l !! j = Some y -> z ∈ l -> z = y \/ z ∈ delete j l.
Proof.
  revert j. induction l as [|a l IH]; intros j Hj Hz; [discriminate|].
  destruct j as [|j]; simpl in Hj |- *.
  - injection Hj as ->. apply elem_of_cons in Hz as [->|Hz]; [now left|].
    now right.
  - apply elem_of_cons in Hz as [->|Hz]; [right; apply list_elem_of_here|].
    destruct (IH j Hj Hz) as [->|Hin]; [now left|].
    right. now apply list_elem_of_further.
Qed.

Lemma filter_delete_due (until : N) :
  forall (ps : list (N * Continuation)) (j : nat) (e : N) (k : Continuation),
    ps !! j = Some (e, k) ->
    (e <= until)%N ->
    List.filter (fun p => (until <? p.1)%N) (delete j ps)
    = List.filter (fun p => (until <? p.1)%N) ps.
Proof.
  induction ps as [|p ps IH]; intros j e k Hj He; [discriminate|].
  destruct j as [|j]; simpl in Hj |- *.
  - injection Hj as ->. simpl. now destruct (N.ltb_spec until e); [lia|].
  - now rewrite (IH j e k Hj He).
Qed.

Lemma existsb_due (until : N) (ps : list (N * Continuation)) (j : nat)
    (e : N) (k : Continuation) :
  ps !! j = Some (e, k) ->
  (e <= until)%N ->
  existsb (fun p => (p.1 <=? until)%N) ps = true.
Proof.
  intros Hj He. apply existsb_exists. exists (e, k). split.
  - apply list_elem_of_In. now apply list_elem_of_lookup_2 in Hj.
  - now apply N.leb_le.
Qed.

(** When nothing is due up to [until], nothing changes. *)
Lemma nothing_due (until : N) (ts : list N) (ps : list (N * Continuation)) :
  Forall (fun d => (until < d)%N) ts ->
  Forall (fun p => (until < p.1)%N) ps ->
  map (next_due until) ts = ts
  /\ List.filter (fun p => (until <? p.1)%N) ps = ps
  /\ existsb (fun p => (p.1 <=? until)%N) ps = false.
Proof.
  intros Hts Hps. split; [|split].
  - induction Hts as [|d ts Hd _ IH]; [reflexivity|].
    simpl. now rewrite IH, next_due_later.
  - induction Hps as [|p ps Hp _ IH]; [reflexivity|].
    simpl. rewrite IH. now destruct (N.ltb_spec until p.1); [|lia].
  - induction Hps as [|p ps Hp _ IH]; [reflexivity|].
    simpl. rewrite IH. now destruct (N.leb_spec p.1 until); [lia|].
Qed.

Lemma fires_at_ge (d t : N) : fires_at d t -> (d <= t)%N.
Proof. intros [n ->]. lia. Qed.

(** The loop, given turns enough: everything that is due up to [until]
    has run, and nothing else has happened. *)
Lemma run_due_spec (until : N) :
  forall (fuel : nat) (w : World),
    (firings until (timers w) + length (pending w) <= fuel)%nat ->
    let w' := run_due fuel until w in
    timers w' = map (next_due until) (timers w)
    /\ pending w' = List.filter (fun p => (until <? p.1)%N) (pending w)
    /\ display w' = display w
    /\ network w' = network w
    /\ message w'
       = (if existsb (fun p => (p.1 <=? until)%N) (pending w)
          then ""%string else message w)
    /\ exists new,
         trace w' = trace w ++ new
         /\ Forall (fun e => from_timer e = true) new
         /\ (forall d t, d ∈ timers w -> fires_at d t -> (t <= until)%N ->
                         Tick t (display w) ∈ new)
         /\ (forall e k, (e, k) ∈ pending w -> (e <= until)%N ->
                         Cleared e ∈ new).
Proof.
  assert (Hidle : forall w : World,
    Forall (fun d => (until < d)%N) (timers w) ->
    Forall (fun p => (until < p.1)%N) (pending w) ->
    timers w = map (next_due until) (timers w)
    /\ pending w = List.filter (fun p => (until <? p.1)%N) (pending w)
    /\ display w = display w
    /\ network w = network w
    /\ message w
       = (if existsb (fun p => (p.1 <=? until)%N) (pending w)
          then ""%string else message w)
    /\ exists new,
         trace w = trace w ++ new
         /\ Forall (fun e => from_timer e = true) new
         /\ (forall d t, d ∈ timers w -> fires_at d t -> (t <= until)%N ->
                         Tick t (display w) ∈ new)
         /\ (forall e k, (e, k) ∈ pending w -> (e <= until)%N ->
                         Cleared e ∈ new)).
  { intros w Hts Hps.
    destruct (nothing_due until _ _ Hts Hps) as (Ht & Hp & Hm).
    rewrite Ht, Hp, Hm. repeat split. exists [].
    split; [now rewrite app_nil_r|]. split; [constructor|]. split.
    - intros d t Hd Hfire Ht'. apply fires_at_ge in Hfire.
      rewrite Forall_forall in Hts. specialize (Hts d Hd). simpl in Hts. lia.
    - intros e k He Hdue. rewrite Forall_forall in Hps.
      specialize (Hps _ He). simpl in Hps. lia. }
  induction fuel as [|fuel IH]; intros w Hfuel.
  { simpl. apply Hidle.
    - apply firings_none. lia.
    - destruct (pending w); [constructor|simpl in Hfuel; lia]. }
  simpl. pose proof (next_first w) as Hnext.
  destruct (next w) as [i d|j e|].
  - destruct Hnext as (Hlook & Hts & Hps).
    destruct (N.leb_spec d until) as [Hd|Hd].
    + assert (Hless : (firings until (timers (fire i d w))
                       + length (pending (fire i d w)) <= fuel)%nat).
      { simpl. pose proof (firings_fire until d Hd _ _ Hlook). lia. }
      destruct (IH (fire i d w) Hless)
        as (Ht & Hp & Hdis & Hnet & Hmsg & new & Htr & Hnew & Hticks & Hcl).
      simpl in Ht, Hp, Hdis, Hnet, Hmsg, Htr, Hticks, Hcl.
      split.
      { rewrite Ht. change map with (@fmap list _).
        rewrite list_fmap_insert, next_due_fire by exact Hd.
        apply list_insert_id. now rewrite list_lookup_fmap, Hlook. }
      split; [exact Hp|]. split; [exact Hdis|]. split; [exact Hnet|].
      split; [exact Hmsg|].
      exists (Tick d (display w) :: new).
      split; [now rewrite Htr, <- app_assoc|].
      split; [now constructor|]. split; [|intros e k He Hdue; right; eauto].
      intros d' t Hd' Hfire Ht'.
      destruct (elem_of_insert_or _ i (d + refreshPeriod)%N _ _ Hlook Hd')
        as [->|Hin]; [|right; now apply (Hticks d')].
      destruct Hfire as [n ->].
      destruct (N.eq_dec n 0%N) as [->|Hn].
      * replace (d + 0 * refreshPeriod)%N with d by lia. left.
      * right. apply (Hticks (d + refreshPeriod)%N).
        -- apply list_elem_of_lookup. exists i.
           apply list_lookup_insert_eq. now apply lookup_lt_Some in Hlook.
        -- exists (n - 1)%N. rewrite refreshPeriod_ms. lia.
        -- exact Ht'.
    + apply Hidle.
      * eapply Forall_impl; [exact Hts|]. simpl. intros. lia.
      * eapply Forall_impl; [exact Hps|]. simpl. intros. lia.
  - destruct Hnext as ([k Hlook] & Hts & Hps).
    destruct (N.leb_spec e until) as [He|He].
    + assert (Hwake : wake j e w
                      = mkWorld e (timers w) (delete j (pending w))
                          (display w) "" (network w)
                          (trace w ++ [Cleared e])).
      { unfold wake. rewrite Hlook. now destruct k. }
      rewrite Hwake.
      assert (Hless : (firings until (timers w)
                       + length (delete j (pending w)) <= fuel)%nat).
      { rewrite length_delete by eauto. apply lookup_lt_Some in Hlook. lia. }
      destruct (IH (mkWorld e (timers w) (delete j (pending w))
                      (display w) "" (network w) (trace w ++ [Cleared e]))
                  Hless)
        as (Ht & Hp & Hdis & Hnet & Hmsg & new & Htr & Hnew & Hticks & Hcl).
      simpl in Ht, Hp, Hdis, Hnet, Hmsg, Htr, Hticks, Hcl.
      split; [exact Ht|].
      split; [now rewrite Hp, (filter_delete_due until _ j e k)|].
      split; [exact Hdis|]. split; [exact Hnet|]. split.
      { rewrite Hmsg, (existsb_due until _ j e k Hlook He).
        now destruct (existsb _ _). }
      exists (Cleared e :: new).
      split; [now rewrite Htr, <- app_assoc|].
      split; [now constructor|]. split; [intros d t Hd Hf Ht'; right; eauto|].
      intros e' k' Hin Hdue.
      destruct (elem_of_delete_or _ j _ _ Hlook Hin) as [Heq|Hin'].
      * assert (e' = e) as -> by congruence. left.
      * right. eauto.
    + apply Hidle.
      * eapply Forall_impl; [exact Hts|]. simpl. intros. lia.
      * eapply Forall_impl; [exact Hps|]. simpl. intros. lia.
  - destruct Hnext as [Ht Hp]. apply Hidle; rewrite ?Ht, ?Hp; constructor.
Qed.

Lemma next_due_twice (t1 t2 d : N) :
  (t1 <= t2)%N -> next_due t2 (next_due t1 d) = next_due t2 d.
Proof.
  intros Ht. unfold next_due. rewrite refreshPeriod_ms.
  repeat match goal with
         | |- context [(?a <=? ?b)%N] => destruct (N.leb_spec a b)
         end;
    try reflexivity; zify; Z.to_euclidean_division_equations; lia.
Qed.

Lemma fires_at_next_due (t0 d t : N) :
  fires_at d t -> (t0 < t)%N -> fires_at (next_due t0 d) t.
Proof.
  intros [n ->] Ht. unfold next_due.
  destruct (N.leb_spec d t0); [|now exists n].
  exists (n - ((t0 - d) / refreshPeriod + 1))%N.
  rewrite refreshPeriod_ms in *.
  zify; Z.to_euclidean_division_equations; lia.
Qed.

Lemma filter_later_twice (t1 t2 : N) (ps : list (N * Continuation)) :
  (t1 <= t2)%N ->
  List.filter (fun p => (t2 <? p.1)%N)
              (List.filter (fun p => (t1 <? p.1)%N) ps)
  = List.filter (fun p => (t2 <? p.1)%N) ps.
Proof.
  intros Ht. induction ps as [|p ps IH]; [reflexivity|]. simpl.
  destruct (N.ltb_spec t1 p.1) as [H1|H1]; simpl;
    destruct (N.ltb_spec t2 p.1) as [H2|H2]; try lia; now rewrite IH.
Qed.

Lemma existsb_due_split (t1 t2 : N) (ps : list (N * Continuation)) :
  (t1 <= t2)%N ->
  existsb (fun p => (p.1 <=? t2)%N) ps
  = existsb (fun p => (p.1 <=? t1)%N) ps
    || existsb (fun p => (p.1 <=? t2)%N)
               (List.filter (fun p => (t1 <? p.1)%N) ps).
Proof.
  intros Ht. induction ps as [|p ps IH]; [reflexivity|]. simpl.
  rewrite IH.
  destruct (N.leb_spec p.1 t1) as [H1|H1], (N.leb_spec p.1 t2) as [H2|H2],
    (N.ltb_spec t1 p.1) as [H3|H3]; try lia; simpl;
    rewrite ?orb_true_r; try reflexivity.
  - destruct (N.leb_spec p.1 t2); [|lia]. now rewrite orb_true_r.
  - destruct (N.leb_spec p.1 t2); [lia|]. reflexivity.
Qed.

Lemma filter_from_timer (evs : list Event) :
  Forall (fun e => from_timer e = true) evs ->
  List.filter (fun e => negb (from_timer e)) evs = [].
Proof.
  induction 1 as [|e evs He _ IH]; [reflexivity|]. simpl. now rewrite He.
Qed.

Lemma filter_not_from_timer (evs : list Event) :
  Forall (fun e => from_timer e = false) evs ->
  List.filter (fun e => negb (from_timer e)) evs = evs.
Proof.
  induction 1 as [|e evs He _ IH]; [reflexivity|]. simpl.
  now rewrite He, IH.
Qed.

(** *** Waiting *)

(** The function under way does [evs] and then waits [ms] milliseconds:
    [w0] is the page when it has done [evs]. *)
Lemma advance_waited (ms : N) (evs : list Event) (w w0 : World) :
  now w0 = now w -> timers w0 = timers w -> pending w0 = pending w ->
  display w0 = display w -> message w0 = message w ->
  trace w0 = trace w ++ evs ->
  Forall (fun e => from_timer e = false) evs ->
  waited ms evs w (advance ms w0)
  /\ network (advance ms w0) = network w0.
Proof.
  intros Hnow Htim Hpen Hdis Hmsg Htr Hevs.
  destruct (run_due_spec (now w0 + ms) _ w0 (Nat.le_refl _))
    as (Ht & Hp & Hd & Hn & Hm & new & Hnew & Hfrom & Hticks & Hcl).
  split; [|exact Hn]. unfold advance. constructor; simpl.
  - now rewrite Hnow.
  - now rewrite Ht, Htim.
  - now rewrite Hp, Hpen.
  - now rewrite Hd.
  - now rewrite Hm, Hpen, Hmsg.
  - unfold effects. simpl. rewrite Hnew, Htr, !List.filter_app.
    rewrite (filter_from_timer new Hfrom), app_nil_r.
    now rewrite (filter_not_from_timer evs Hevs).
  - exists (evs ++ new). split; [now rewrite Hnew, Htr, app_assoc|]. split.
    + intros d t Hin Hfire Hle. apply elem_of_app. right.
      rewrite <- Hdis. apply (Hticks d); [now rewrite Htim|exact Hfire|exact Hle].
    + intros e k Hin Hle. apply elem_of_app. right.
      apply (Hcl e k); [now rewrite Hpen|exact Hle].
Qed.

Lemma waited_trans (ms1 ms2 : N) (evs1 evs2 : list Event) (w w1 w2 : World) :
  waited ms1 evs1 w w1 -> waited ms2 evs2 w1 w2 ->
  waited (ms1 + ms2) (evs1 ++ evs2) w w2.
Proof.
  intros [Hn1 Ht1 Hp1 Hd1 Hm1 He1 (new1 & Htr1 & Hticks1 & Hcl1)]
         [Hn2 Ht2 Hp2 Hd2 Hm2 He2 (new2 & Htr2 & Hticks2 & Hcl2)].
  assert (Hle : (now w1 <= now w2)%N) by lia.
  constructor.
  - lia.
  - rewrite Ht2, Ht1. change map with (@fmap list _).
    rewrite <- list_fmap_compose. apply list_fmap_ext.
    intros i d _. simpl. now apply next_due_twice.
  - rewrite Hp2, Hp1. now apply filter_later_twice.
  - congruence.
  - rewrite Hm2, Hp1, Hm1,
      (existsb_due_split (now w1) (now w2) (pending w) Hle).
    generalize (existsb (fun p => (p.1 <=? now w1)%N) (pending w)).
    generalize (existsb (fun p => (p.1 <=? now w2)%N)
                  (List.filter (fun p => (now w1 <? p.1)%N) (pending w))).
    now intros [] [].
  - now rewrite He2, He1, app_assoc.
  - exists (new1 ++ new2). split; [now rewrite Htr2, Htr1, app_assoc|]. split.
    + intros d t Hin Hfire Hdue. apply elem_of_app.
      destruct (N.le_gt_cases t (now w1)) as [Hfirst|Hlater].
      * left. now apply (Hticks1 d).
      * right. rewrite <- Hd1.
        apply (Hticks2 (next_due (now w1) d)); [|now apply fires_at_next_due|exact Hdue].
        rewrite Ht1. apply list_elem_of_In, in_map, list_elem_of_In. exact Hin.
    + intros e k Hin Hdue. apply elem_of_app.
      destruct (N.le_gt_cases e (now w1)) as [Hfirst|Hlater].
      * left. now apply (Hcl1 e k).
      * right. apply (Hcl2 e k); [|exact Hdue].
        rewrite Hp1. apply list_elem_of_In, filter_In. split.
        -- now apply list_elem_of_In.
        -- now apply N.ltb_lt.
Qed.

Lemma bind_Returned {A B} (m : Async A) (k : A -> Async B) (w w' : World)
    (a : A) :
  m w = Some (Returned a, w') -> (m ≫= k) w = k a w'.
Proof.
  intros Hm. unfold mbind, Async_bind, bind. now rewrite Hm.
Qed.

Lemma bind_Threw {A B} (m : Async A) (k : A -> Async B) (w w' : World)
    (err : string) :
  m w = Some (Threw err, w') -> (m ≫= k) w = Some (Threw err, w').
Proof.
  intros Hm. unfold mbind, Async_bind, bind. now rewrite Hm.
Qed.

Lemma try_catch_Returned {A} (m : Async A) (handler : string -> Async A)
    (w w' : World) (a : A) :
  m w = Some (Returned a, w') -> try_catch m handler w = Some (Returned a, w').
Proof. intros Hm. unfold try_catch. now rewrite Hm. Qed.

Lemma try_catch_Threw {A} (m : Async A) (handler : string -> Async A)
    (w w' : World) (err : string) :
  m w = Some (Threw err, w') -> try_catch m handler w = handler err w'.
Proof. intros Hm. unfold try_catch. now rewrite Hm. Qed.

(** [await sleep(ms)] *)
Lemma sleep_waited (ms : N) (w : World) :
  exists w',
    sleep ms w = Some (Returned tt, w')
    /\ waited ms [Sleep ms] w w' /\ network w' = network w.
Proof.
  exists (advance ms (log (Sleep ms) w)). split; [reflexivity|].
  apply (advance_waited ms [Sleep ms] w (log (Sleep ms) w));
    try reflexivity. now repeat constructor.
Qed.

(** [await fetch(url)] *)
Lemma fetch_waited (url : string) (ex : Exchange) (rest : list Exchange)
    (w : World) :
  network w = ex :: rest ->
  exists w',
    fetch url w
    = Some (if reachable ex then Returned (mkResponse (Server.body url))
            else Threw "TypeError: Failed to fetch", w')
    /\ waited (latency ex) [Fetch url (reachable ex)] w w'
    /\ network w' = rest.
Proof.
  intros Hnet. unfold fetch. rewrite Hnet.
  exists (advance (latency ex)
            (log (Fetch url (reachable ex)) (set_network rest w))).
  split; [now destruct (reachable ex)|].
  apply (advance_waited (latency ex) [Fetch url (reachable ex)] w
           (log (Fetch url (reachable ex)) (set_network rest w)));
    try reflexivity. now repeat constructor.
Qed.

Lemma fetch_stuck (url : string) (w : World) :
  network w = [] -> fetch url w = None.
Proof. intros Hnet. unfold fetch. now rewrite Hnet. Qed.

Import More.

Lemma waited_eq (ms ms' : N) (evs evs' : list Event) (w w' : World) :
  ms = ms' -> evs = evs' -> waited ms evs w w' -> waited ms' evs' w w'.
Proof. now intros <- <-. Qed.

Lemma latencies_app (a b : list Exchange) :
  latencies (a ++ b) = (latencies a + latencies b)%N.
Proof.
  induction a as [|ex a IH]; simpl; [reflexivity|]. rewrite IH. lia.
Qed.

(** *** The functions of the script *)

Lemma hideDashboard_fields (msg : string) (w : World) :
  exists w',
    hideDashboard msg w = Some (Returned tt, w')
    /\ now w' = now w /\ timers w' = timers w /\ pending w' = pending w
    /\ display w' = false /\ message w' = paragraph msg
    /\ network w' = network w
    /\ trace w' = trace w ++ [HideDashboard msg].
Proof. eexists. split; [reflexivity|]. now repeat split. Qed.

Lemma showDashboard_fields (msg : string) (w : World) :
  exists w',
    showDashboard msg w = Some (Returned tt, w')
    /\ now w' = now w
    /\ timers w' = timers w ++ [(now w + refreshPeriod)%N]
    /\ pending w'
       = pending w ++ (if String.eqb msg "" then []
                       else [((now w + 3000)%N, showDashboard_rest)])
    /\ display w' = true
    /\ message w' = (if String.eqb msg "" then message w else paragraph msg)
    /\ network w' = network w
    /\ trace w'
       = trace w ++ [UpdateChart; ShowDashboard; SetInterval refreshPeriod]
         ++ (if String.eqb msg "" then []
             else [Message (paragraph msg); Sleep 3000]).
Proof.
  unfold showDashboard. destruct (String.eqb msg "") eqn:Hmsg; simpl;
    (eexists; split; [reflexivity|]); simpl;
    rewrite ?app_nil_r, <- ?app_assoc; now repeat split.
Qed.

(** [fetchRetry] when an attempt is answered before the budget [n] runs
    out: the failed attempts, a wait of five seconds after each, and the
    answered one. *)
Lemma fetchRetry_fuel_answered (url : string) (ok : Exchange)
    (rest : list Exchange) :
  reachable ok = true ->
  forall (fails : list Exchange) (fuel : nat) (n : Z) (w : World),
    Forall (fun ex => reachable ex = false) fails ->
    network w = fails ++ ok :: rest ->
    (length fails < fuel)%nat ->
    Z.of_nat (length fails) < n ->
    exists w',
      fetchRetry_fuel fuel url n w
      = Some (Returned (mkResponse (Server.body url)), w')
      /\ waited (latencies fails + 5000 * N.of_nat (length fails)
                 + latency ok)
                (retries url (length fails) ++ [Fetch url true]) w w'
      /\ network w' = rest.
Proof.
  intros Hok. induction fails as [|ex fails IH];
    intros fuel n w Hfails Hnet Hfuel Hn;
    (destruct fuel as [|fuel]; [simpl in Hfuel; lia|]); simpl fetchRetry_fuel.
  - destruct (fetch_waited url ok rest w Hnet) as (w1 & Hfetch & Hw1 & Hn1).
    rewrite Hok in Hfetch, Hw1. exists w1.
    split; [now apply try_catch_Returned|]. split; [|exact Hn1].
    eapply waited_eq; [| |exact Hw1]; [simpl; lia|reflexivity].
  - apply Forall_cons in Hfails as [Hex Hfails].
    destruct (fetch_waited url ex (fails ++ ok :: rest) w Hnet)
      as (w1 & Hfetch & Hw1 & Hn1).
    rewrite Hex in Hfetch, Hw1.
    rewrite (try_catch_Threw _ _ w w1 _ Hfetch).
    simpl in Hn. destruct (Z.eqb_spec n 1) as [Hn1'|_]; [lia|].
    destruct (sleep_waited 5000 w1) as (w2 & Hsleep & Hw2 & Hn2).
    rewrite (bind_Returned _ _ w1 w2 tt Hsleep).
    destruct (IH fuel (n - 1) w2 Hfails) as (w' & Hrun & Hw' & Hn').
    + now rewrite Hn2, Hn1.
    + simpl in Hfuel. lia.
    + lia.
    + exists w'. split; [exact Hrun|]. split; [|exact Hn'].
      eapply waited_eq;
        [| |exact (waited_trans _ _ _ _ _ _ _ Hw1
                     (waited_trans _ _ _ _ _ _ _ Hw2 Hw'))].
      * simpl latencies. simpl length. lia.
      * reflexivity.
Qed.

(** [fetchRetry] when the attempts all fail: after the [n]-th failure it
    throws, with no wait and no further attempt. *)
Lemma fetchRetry_fuel_exhausted (url : string) (last : Exchange)
    (rest : list Exchange) :
  reachable last = false ->
  forall (fails : list Exchange) (fuel : nat) (w : World),
    Forall (fun ex => reachable ex = false) fails ->
    network w = fails ++ last :: rest ->
    (length fails < fuel)%nat ->
    exists w',
      fetchRetry_fuel fuel url (Z.of_nat (S (length fails))) w
      = Some (Threw "TypeError: Failed to fetch", w')
      /\ waited (latencies fails + 5000 * N.of_nat (length fails)
                 + latency last)
                (retries url (length fails) ++ [Fetch url false]) w w'
      /\ network w' = rest.
Proof.
  intros Hlast. induction fails as [|ex fails IH];
    intros fuel w Hfails Hnet Hfuel;
    (destruct fuel as [|fuel]; [simpl in Hfuel; lia|]).
  - destruct (fetch_waited url last rest w Hnet) as (w1 & Hfetch & Hw1 & Hn1).
    rewrite Hlast in Hfetch, Hw1. exists w1. split; [|split].
    + simpl fetchRetry_fuel. rewrite (try_catch_Threw _ _ w w1 _ Hfetch).
      reflexivity.
    + eapply waited_eq; [| |exact Hw1]; [simpl; lia|reflexivity].
    + exact Hn1.
  - apply Forall_cons in Hfails as [Hex Hfails].
    destruct (fetch_waited url ex (fails ++ last :: rest) w Hnet)
      as (w1 & Hfetch & Hw1 & Hn1).
    rewrite Hex in Hfetch, Hw1.
    destruct (sleep_waited 5000 w1) as (w2 & Hsleep & Hw2 & Hn2).
    destruct (IH fuel w2 Hfails) as (w' & Hrun & Hw' & Hn').
    + now rewrite Hn2, Hn1.
    + simpl in Hfuel. lia.
    + exists w'. split; [|split; [|exact Hn']].
      * change (fetchRetry_fuel (S fuel) url
                  (Z.of_nat (S (length (ex :: fails)))) w)
          with (try_catch (fetch url)
                  (fun err =>
                     if Z.of_nat (S (length (ex :: fails))) =? 1 then throw err
                     else sleep 5000;;
                          fetchRetry_fuel fuel url
                            (Z.of_nat (S (length (ex :: fails))) - 1)) w).
        rewrite (try_catch_Threw _ _ w w1 _ Hfetch).
        destruct (Z.eqb_spec (Z.of_nat (S (length (ex :: fails)))) 1)
          as [H1|_]; [simpl in H1; lia|].
        rewrite (bind_Returned _ _ w1 w2 tt Hsleep).
        replace (Z.of_nat (S (length (ex :: fails))) - 1)
          with (Z.of_nat (S (length fails))) by (simpl length; lia).
        exact Hrun.
      * eapply waited_eq;
          [| |exact (waited_trans _ _ _ _ _ _ _ Hw1
                       (waited_trans _ _ _ _ _ _ _ Hw2 Hw'))].
        -- simpl latencies. simpl length. lia.
        -- reflexivity.
Qed.

Lemma fetchRetry_answered (url : string) (ok : Exchange)
    (fails rest : list Exchange) (n : Z) (w : World) :
  reachable ok = true ->
  Forall (fun ex => reachable ex = false) fails ->
  network w = fails ++ ok :: rest ->
  Z.of_nat (length fails) < n ->
  exists w',
    fetchRetry url n w = Some (Returned (mkResponse (Server.body url)), w')
    /\ waited (latencies fails + 5000 * N.of_nat (length fails) + latency ok)
              (retries url (length fails) ++ [Fetch url true]) w w'
    /\ network w' = rest.
Proof.
  intros Hok Hfails Hnet Hn. unfold fetchRetry.
  apply (fetchRetry_fuel_answered url ok rest Hok fails); try assumption.
  rewrite Hnet, length_app. simpl. lia.
Qed.

Lemma fetchRetry_exhausted (url : string) (last : Exchange)
    (fails rest : list Exchange) (w : World) :
  reachable last = false ->
  Forall (fun ex => reachable ex = false) fails ->
  network w = fails ++ last :: rest ->
  exists w',
    fetchRetry url (Z.of_nat (S (length fails))) w
    = Some (Threw "TypeError: Failed to fetch", w')
    /\ waited (latencies fails + 5000 * N.of_nat (length fails)
               + latency last)
              (retries url (length fails) ++ [Fetch url false]) w w'
    /\ network w' = rest.
Proof.
  intros Hlast Hfails Hnet. unfold fetchRetry.
  apply (fetchRetry_fuel_exhausted url last rest Hlast fails); try assumption.
  rewrite Hnet, length_app. simpl. lia.
Qed.

Lemma script_cases (n : nat) :
  forall net : list Exchange,
    (exists fails ok rest,
       net = fails ++ ok :: rest
       /\ Forall (fun ex => reachable ex = false) fails
       /\ reachable ok = true /\ (length fails < n)%nat)
    \/ (exists fails rest,
          net = fails ++ rest
          /\ Forall (fun ex => reachable ex = false) fails
          /\ length fails = n)
    \/ (Forall (fun ex => reachable ex = false) net /\ (length net < n)%nat).
Proof.
  induction n as [|n IH]; intros net.
  - right. left. exists [], net. repeat split; constructor.
  - destruct net as [|ex net].
    + right. right. split; [constructor|simpl; lia].
    + destruct (reachable ex) eqn:Hex.
      * left. exists [], ex, net. repeat split; [constructor|assumption|simpl; lia].
      * destruct (IH net) as [(fails & ok & rest & -> & Hf & Hok & Hlen)
                             |[(fails & rest & -> & Hf & Hlen)|[Hf Hlen]]].
        -- left. exists (ex :: fails), ok, rest.
           repeat split; [now constructor|assumption|simpl; lia].
        -- right. left. exists (ex :: fails), rest.
           repeat split; [now constructor|simpl; lia].
        -- right. right. split; [now constructor|simpl; lia].
Qed.

(** While every attempt fails and the budget is not used up, or there is
    none to use up, [fetchRetry] goes on until the exchanges run out. *)
Lemma fetchRetry_fuel_stuck (url : string) :
  forall (net : list Exchange) (fuel : nat) (n : Z) (w : World),
    network w = net ->
    Forall (fun ex => reachable ex = false) net ->
    ~ (1 <= n <= Z.of_nat (length net)) ->
    fetchRetry_fuel fuel url n w = None.
Proof.
  induction net as [|ex net IH]; intros fuel n w Hnet Hfails Hn;
    (destruct fuel as [|fuel]; [reflexivity|]); simpl.
  - unfold try_catch. now rewrite (fetch_stuck url w Hnet).
  - apply Forall_cons in Hfails as [Hex Hfails].
    destruct (fetch_waited url ex net w Hnet) as (w1 & Hfetch & _ & Hn1).
    rewrite Hex in Hfetch. rewrite (try_catch_Threw _ _ w w1 _ Hfetch).
    destruct (Z.eqb_spec n 1) as [->|Hn1']; [simpl in Hn; lia|].
    destruct (sleep_waited 5000 w1) as (w2 & Hsleep & _ & Hn2).
    rewrite (bind_Returned _ _ w1 w2 tt Hsleep).
    apply IH; [|exact Hfails|simpl in Hn; lia].
    now rewrite Hn2, Hn1.
Qed.

(** *** The restart handler *)

(** Waiting, hiding the dashboard, and waiting again. *)
Lemma hidden_between (ms1 ms2 : N) (evs1 evs2 : list Event) (msg : string)
    (w w1 w2 w4 : World) :
  waited ms1 evs1 w w1 ->
  hideDashboard msg w1 = Some (Returned tt, w2) ->
  waited ms2 evs2 w2 w4 ->
  hidden_after ms1 ms2 (evs1 ++ HideDashboard msg :: evs2) w w4.
Proof.
  intros [Hn1 Ht1 Hp1 Hd1 Hm1 He1 (new1 & Htr1 & Hticks1 & Hcl1)] Hhide
         [Hn4 Ht4 Hp4 Hd4 Hm4 He4 (new4 & Htr4 & Hticks4 & Hcl4)].
  injection Hhide as <-. simpl in *.
  assert (Hle : (now w1 <= now w4)%N) by lia.
  constructor.
  - lia.
  - rewrite Ht4, Ht1. change map with (@fmap list _).
    rewrite <- list_fmap_compose. apply list_fmap_ext.
    intros i d _. simpl. now apply next_due_twice.
  - rewrite Hp4, Hp1. now apply filter_later_twice.
  - exact Hd4.
  - rewrite He4. unfold effects at 1. simpl.
    rewrite List.filter_app. simpl. fold (effects w1).
    now rewrite He1, <- !app_assoc.
  - exists (new1 ++ HideDashboard msg :: new4).
    split; [now rewrite Htr4, Htr1, <- !app_assoc|].
    intros d t Hin Hfire Hdue. apply elem_of_app. rewrite <- Hn1.
    destruct (N.ltb_spec (now w1) t) as [Hlater|Hfirst].
    + right. right.
      apply (Hticks4 (next_due (now w1) d));
        [|now apply fires_at_next_due|exact Hdue].
      rewrite Ht1. apply list_elem_of_In, in_map, list_elem_of_In. exact Hin.
    + left. now apply (Hticks1 d).
Qed.

(** The restart handler up to the polling: the command, the dashboard
    hidden under the server's answer, the settle delay. *)
Lemma restartHandler_settled (ack : Exchange) (net : list Exchange)
    (w : World) :
  reachable ack = true ->
  network w = ack :: net ->
  exists w1 w2 w3,
    waited (latency ack) [Fetch "restart" true] w w1
    /\ hideDashboard (Server.body "restart") w1 = Some (Returned tt, w2)
    /\ waited 3000 [Sleep 3000] w2 w3
    /\ network w3 = net
    /\ restartHandler w
       = (r ← try_catch
                (response ← fetchRetry "test" 10;
                 mret (Some (text response)))
                (fun err => hideDashboard fatalMessage;; mret None);
          match r with
          | None => mret tt
          | Some msg => showDashboard msg
          end) w3.
Proof.
  intros Hack Hnet.
  destruct (fetch_waited "restart" ack net w Hnet) as (w1 & Hfetch & Hw1 & Hn1).
  rewrite Hack in Hfetch, Hw1.
  destruct (hideDashboard_fields (Server.body "restart") w1)
    as (w2 & Hhide & _ & _ & _ & _ & _ & Hn2 & _).
  destruct (sleep_waited 3000 w2) as (w3 & Hsleep & Hw3 & Hn3).
  exists w1, w2, w3. split; [exact Hw1|]. split; [exact Hhide|].
  split; [exact Hw3|]. split; [now rewrite Hn3, Hn2|].
  unfold restartHandler.
  rewrite (bind_Returned _ _ w w1 _ Hfetch).
  rewrite (bind_Returned _ _ w1 w2 _ Hhide).
  rewrite (bind_Returned _ _ w2 w3 _ Hsleep). reflexivity.
Qed.

(** A restart that reconnects within the budget: the page [w4] when the
    poll has been answered, and the call of [showDashboard] that ends the
    handler. *)
Lemma restartHandler_reconnects (ack ok : Exchange)
    (fails rest : list Exchange) (w : World) :
  reachable ack = true ->
  Forall (fun ex => reachable ex = false) fails ->
  (length fails < 10)%nat ->
  reachable ok = true ->
  network w = ack :: fails ++ ok :: rest ->
  exists w4 w',
    restartHandler w = Some (Returned tt, w')
    /\ hidden_after (latency ack)
         (3000 + latencies fails + 5000 * N.of_nat (length fails)
          + latency ok)
         ([Fetch "restart" true; HideDashboard (Server.body "restart");
           Sleep 3000]
          ++ retries "test" (length fails) ++ [Fetch "test" true]) w w4
    /\ network w4 = rest
    /\ showDashboard (Server.body "test") w4 = Some (Returned tt, w').
Proof.
  intros Hack Hfails Hlen Hok Hnet.
  destruct (restartHandler_settled ack _ w Hack Hnet)
    as (w1 & w2 & w3 & Hw1 & Hhide & Hw3 & Hn3 & ->).
  destruct (fetchRetry_answered "test" ok fails rest 10 w3 Hok Hfails Hn3)
    as (w4 & Hpoll & Hw4 & Hn4); [lia|].
  destruct (showDashboard_fields (Server.body "test") w4) as (w' & Hshow & _).
  exists w4, w'. split; [|split; [|split; [exact Hn4|exact Hshow]]].
  - rewrite (bind_Returned _ _ w3 w4 (Some (Server.body "test")));
      [exact Hshow|].
    apply try_catch_Returned.
    now rewrite (bind_Returned _ _ w3 w4 _ Hpoll).
  - pose proof (hidden_between _ _ _ _ _ _ _ _ _ Hw1 Hhide
                  (waited_trans _ _ _ _ _ _ _ Hw3 Hw4)) as H.
    destruct H as [Hn Ht Hp Hd He Htr]. constructor; try assumption.
    + rewrite Hn. lia.
Qed.

(** A restart whose ten attempts all fail: the page [w4] when the tenth
    has failed, and the call of [hideDashboard] that ends the handler. *)
Lemma restartHandler_gives_up (ack : Exchange) (fails rest : list Exchange)
    (w : World) :
  reachable ack = true ->
  Forall (fun ex => reachable ex = false) fails ->
  (length fails = 10)%nat ->
  network w = ack :: fails ++ rest ->
  exists w4 w',
    restartHandler w = Some (Returned tt, w')
    /\ hidden_after (latency ack) (3000 + latencies fails + 45000)
         ([Fetch "restart" true; HideDashboard (Server.body "restart");
           Sleep 3000]
          ++ retries "test" 9 ++ [Fetch "test" false]) w w4
    /\ network w4 = rest
    /\ hideDashboard fatalMessage w4 = Some (Returned tt, w').
Proof.
  intros Hack Hfails Hlen Hnet.
  destruct (restartHandler_settled ack _ w Hack Hnet)
    as (w1 & w2 & w3 & Hw1 & Hhide & Hw3 & Hn3 & ->).
  destruct (exists_last (l := fails)) as (front & last & ->);
    [now destruct fails|].
  rewrite length_app in Hlen. simpl in Hlen.
  apply Forall_app in Hfails as [Hfront Hlast].
  apply Forall_cons in Hlast as [Hlast _].
  destruct (fetchRetry_exhausted "test" last front rest w3 Hlast Hfront)
    as (w4 & Hpoll & Hw4 & Hn4); [now rewrite Hn3, <- app_assoc|].
  replace (Z.of_nat (S (length front))) with 10 in Hpoll by lia.
  destruct (hideDashboard_fields fatalMessage w4) as (w' & Hfatal & _).
  exists w4, w'. split; [|split; [|split; [exact Hn4|exact Hfatal]]].
  - rewrite (bind_Returned _ _ w3 w' None); [reflexivity|].
    rewrite (try_catch_Threw _ _ w3 w4 "TypeError: Failed to fetch");
      [|now rewrite (bind_Threw _ _ w3 w4 _ Hpoll)].
    now rewrite (bind_Returned _ _ w4 w' _ Hfatal).
  - pose proof (hidden_between _ _ _ _ _ _ _ _ _ Hw1 Hhide
                  (waited_trans _ _ _ _ _ _ _ Hw3 Hw4)) as H.
    replace (length front) with 9%nat in H by lia.
    destruct H as [Hn Ht Hp Hd He Htr]. constructor; try assumption.
    rewrite Hn, latencies_app. simpl. lia.
Qed.

(** The ways the restart handler can go, by what the network does. *)
Lemma restartHandler_cases (w : World) (ack : Exchange)
    (net : list Exchange) :
  network w = ack :: net ->
  (reachable ack = false
   /\ exists w',
        restartHandler w = Some (Threw "TypeError: Failed to fetch", w')
        /\ waited (latency ack) [Fetch "restart" false] w w'
        /\ network w' = net)
  \/ (reachable ack = true
      /\ ((exists fails ok rest w4 w',
             net = fails ++ ok :: rest
             /\ Forall (fun ex => reachable ex = false) fails
             /\ reachable ok = true /\ (length fails < 10)%nat
             /\ restartHandler w = Some (Returned tt, w')
             /\ hidden_after (latency ack)
                  (3000 + latencies fails + 5000 * N.of_nat (length fails)
                   + latency ok)
                  ([Fetch "restart" true;
                    HideDashboard (Server.body "restart"); Sleep 3000]
                   ++ retries "test" (length fails) ++ [Fetch "test" true])
                  w w4
             /\ network w4 = rest
             /\ showDashboard (Server.body "test") w4
                = Some (Returned tt, w'))
          \/ (exists fails rest w4 w',
                net = fails ++ rest
                /\ Forall (fun ex => reachable ex = false) fails
                /\ length fails = 10%nat
                /\ restartHandler w = Some (Returned tt, w')
                /\ hidden_after (latency ack)
                     (3000 + latencies fails + 45000)
                     ([Fetch "restart" true;
                       HideDashboard (Server.body "restart"); Sleep 3000]
                      ++ retries "test" 9 ++ [Fetch "test" false]) w w4
                /\ network w4 = rest
                /\ hideDashboard fatalMessage w4 = Some (Returned tt, w'))
          \/ (Forall (fun ex => reachable ex = false) net
              /\ (length net < 10)%nat
              /\ restartHandler w = None))).
Proof.
  intros Hnet. destruct (reachable ack) eqn:Hack; [right|left].
  - split; [reflexivity|].
    destruct (script_cases 10 net)
      as [(fails & ok & rest & -> & Hf & Hok & Hlen)
         |[(fails & rest & -> & Hf & Hlen)|[Hf Hlen]]].
    + left. destruct (restartHandler_reconnects ack ok fails rest w Hack Hf
                        Hlen Hok Hnet) as (w4 & w' & Hrun & Hw4 & Hn4 & Hshow).
      exists fails, ok, rest, w4, w'. split; [reflexivity|].
      do 3 (split; [assumption|]). split; [exact Hrun|].
      split; [exact Hw4|]. split; [exact Hn4|exact Hshow].
    + right. left.
      destruct (restartHandler_gives_up ack fails rest w Hack Hf Hlen Hnet)
        as (w4 & w' & Hrun & Hw4 & Hn4 & Hfatal).
      exists fails, rest, w4, w'. split; [reflexivity|].
      do 2 (split; [assumption|]). split; [exact Hrun|].
      split; [exact Hw4|]. split; [exact Hn4|exact Hfatal].
    + right. right. split; [exact Hf|]. split; [exact Hlen|].
      destruct (restartHandler_settled ack net w Hack Hnet)
        as (w1 & w2 & w3 & _ & _ & _ & Hn3 & ->).
      unfold mbind at 1, Async_bind, bind, try_catch.
      unfold mbind at 1, Async_bind, bind, fetchRetry.
      rewrite (fetchRetry_fuel_stuck "test" net); try assumption; try lia.
      reflexivity.
  - split; [reflexivity|].
    destruct (fetch_waited "restart" ack net w Hnet)
      as (w1 & Hfetch & Hw1 & Hn1).
    rewrite Hack in Hfetch, Hw1. exists w1.
    split; [|split; [exact Hw1|exact Hn1]].
    unfold restartHandler. now rewrite (bind_Threw _ _ w w1 _ Hfetch).
Qed.

(** *** After a handler *)


Ltac list_norm := repeat (rewrite <- app_assoc || rewrite <- app_comm_cons).

Lemma effects_trace (w w' : World) (new : list Event) :
  trace w' = trace w ++ new ->
  effects w' = effects w ++ List.filter (fun e => negb (from_timer e)) new.
Proof. intros H. unfold effects. now rewrite H, List.filter_app. Qed.

(** C4. Once the restart command is acknowledged, the handler hides the
    dashboard, waits the settle delay of three seconds and then polls
    [test]: after every failed attempt but the tenth it waits five seconds
    and tries again, so that the handler is done when the times the
    requests took, the three seconds and five seconds for every failed
    attempt have gone by.  If one of the first ten attempts is answered
    (after at most nine failures) the dashboard is shown again with the
    server's welcome, which is left to be cleared three seconds later, and
    a refresh is requested; if ten attempts fail the dashboard stays hidden
    under the message that asks for a manual reset, 45 seconds of waiting
    after the settle delay, and the eleventh exchange is never taken. *)
Theorem restart_polls_ten_times (w : World) (ack : Exchange)
    (fails rest : list Exchange) :
  reachable ack = true ->
  Forall (fun ex => reachable ex = false) fails ->
  (forall ok,
     (length fails < 10)%nat ->
     reachable ok = true ->
     network w = ack :: fails ++ ok :: rest ->
     exists w',
       restartHandler w = Some (Returned tt, w')
       /\ effects w'
          = effects w
            ++ [Fetch "restart" true;
                HideDashboard "WetSpec is restarting. Please wait...";
                Sleep 3000]
            ++ retries "test" (length fails)
            ++ [Fetch "test" true; UpdateChart; ShowDashboard;
                SetInterval 450000; Message "<p>Welcome to WetSpec.</p>";
                Sleep 3000]
       /\ now w'
          = (now w + latency ack + 3000 + latencies fails
             + 5000 * N.of_nat (length fails) + latency ok)%N
       /\ display w' = true
       /\ message w' = "<p>Welcome to WetSpec.</p>"%string
       /\ pending w'
          = List.filter (fun p => (now w' <? p.1)%N) (pending w)
            ++ [((now w' + 3000)%N, showDashboard_rest)]
       /\ network w' = rest)
  /\ ((length fails = 10)%nat ->
      network w = ack :: fails ++ rest ->
      exists w',
        restartHandler w = Some (Returned tt, w')
        /\ effects w'
           = effects w
             ++ [Fetch "restart" true;
                 HideDashboard "WetSpec is restarting. Please wait...";
                 Sleep 3000]
             ++ retries "test" 9
             ++ [Fetch "test" false; HideDashboard fatalMessage]
        /\ now w'
           = (now w + latency ack + 3000 + latencies fails + 45000)%N
        /\ display w' = false
        /\ message w' = paragraph fatalMessage
        /\ pending w' = List.filter (fun p => (now w' <? p.1)%N) (pending w)
        /\ network w' = rest
        /\ length (timers w') = length (timers w)).
Proof.
  intros Hack Hfails. split.
  - intros ok Hlen Hok Hnet.
    destruct (restartHandler_reconnects ack ok fails rest w Hack Hfails Hlen
                Hok Hnet)
      as (w4 & w' & Hrun & [Hn4 Ht4 Hp4 Hd4 He4 _] & Hnet4 & Hshow).
    destruct (showDashboard_fields (Server.body "test") w4)
      as (w5 & Hshow5 & Hn & Ht & Hp & Hd & Hm & Hnet5 & Htr).
    rewrite Hshow in Hshow5. injection Hshow5 as <-.
    exists w'. split; [exact Hrun|]. split; [|split; [|split; [|split; [|split]]]].
    + rewrite (effects_trace _ _ _ Htr), He4. simpl.
      list_norm. reflexivity.
    + rewrite Hn, Hn4. lia.
    + exact Hd.
    + exact Hm.
    + rewrite Hp, Hn, Hp4. reflexivity.
    + now rewrite Hnet5.
  - intros Hlen Hnet.
    destruct (restartHandler_gives_up ack fails rest w Hack Hfails Hlen Hnet)
      as (w4 & w' & Hrun & [Hn4 Ht4 Hp4 Hd4 He4 _] & Hnet4 & Hfatal).
    destruct (hideDashboard_fields fatalMessage w4)
      as (w5 & Hfatal5 & Hn & Ht & Hp & Hd & Hm & Hnet5 & Htr).
    rewrite Hfatal in Hfatal5. injection Hfatal5 as <-.
    exists w'. split; [exact Hrun|].
    split; [|split; [|split; [|split; [|split; [|split]]]]].
    + rewrite (effects_trace _ _ _ Htr), He4. simpl.
      list_norm. reflexivity.
    + rewrite Hn, Hn4. lia.
    + exact Hd.
    + exact Hm.
    + rewrite Hp, Hn, Hp4. reflexivity.
    + now rewrite Hnet5.
    + rewrite Ht, Ht4. now rewrite length_map.
Qed.


Import Examples.

(** C5.  [showDashboard] has no check for a timer that is already
    running: a call is never rejected and always creates one more interval
    timer.  At the failing input, a page that is loaded and three seconds
    later restarted, with the device answering the command and the first
    poll, the handler is done at 6040 ms and two timers are running, the
    one of the page load and the one of the restart: in the 450 seconds
    that follow [updateChart] is called twice by timers, where the comments
    of [showDashboard] say once per update interval. *)
Theorem second_timer_after_restart :
  (forall msg w,
     exists w',
       showDashboard msg w = Some (Returned tt, w')
       /\ timers w' = timers w ++ [(now w + 450000)%N])
  /\ exists w,
       session [up; up] [Idle 3000; ClickRestart] = Some w
       /\ now w = 6040%N
       /\ timers w = [450000; 456040]%N
       /\ ~ at_most_one_timer w
       /\ ticks (trace (advance 450000 w))
          = [Tick 450000 true; Tick 456040 true].
Proof.
  split.
  - intros msg w.
    destruct (showDashboard_fields msg w) as (w' & Hrun & _ & Ht & _).
    now exists w'.
  - eexists. split; [vm_compute; reflexivity|].
    split; [reflexivity|]. split; [reflexivity|].
    split; [|vm_compute; reflexivity].
    unfold at_most_one_timer. simpl. lia.
Qed.

(** ** The theorems at concrete inputs *)

Import Examples.

Lemma smooth_growth_window_witness :
  exists out,
    Dashboard.calculateSMADataset odd_series = Some out
    /\ out !! 2%nat = Some (mkDatum (newDate 3600000) 4).
Proof.
  destruct (smooth_growth_window odd_series 2
              (mkDatum (newDate 3600000) 5) ltac:(lia) eq_refl)
    as (out & Hrun & Hat & _).
  exists out. split; [exact Hrun|]. rewrite Hat. vm_compute. reflexivity.
Defined.

Lemma smooth_full_window_witness :
  exists out,
    Dashboard.calculateSMADataset odd_series = Some out
    /\ out !! 12%nat = Some (mkDatum (newDate 21600000) 14).
Proof.
  destruct (smooth_full_window odd_series 12
              (mkDatum (newDate 21600000) 25) ltac:(lia) eq_refl)
    as (out & Hrun & Hat & _).
  exists out. split; [exact Hrun|]. rewrite Hat. vm_compute. reflexivity.
Defined.

Lemma two_points_increasing : Spec.increasing two_points.
Proof. repeat constructor. Defined.

Lemma getXBreaks_breaks_witness :
  Dashboard.getXBreaks two_points
  = Some [mkBreak (newDate 5400000) (newDate 14400000) "wavy" 1].
Proof.
  destruct (getXBreaks_breaks two_points two_points_increasing)
    as (_ & _ & _ & _ & Htwo).
  exact (Htwo _ _ eq_refl eq_refl).
Defined.



Lemma data_functions_pure_witness :
  exists r1 h1 r2 h2,
    Heap.calculateSMADataset 3%nat small_store = Some (r1, h1)
    /\ Heap.calculateSMADataset 3%nat h1 = Some (r2, h2)
    /\ series_at h1 r1 = series_at h2 r2
    /\ series_at h2 3%nat = Some small_series.
Proof.
  destruct (data_functions_pure small_store 3 small_series eq_refl)
    as [(out & r1 & h1 & r2 & h2 & H1 & H2 & Ho1 & _ & Ho2 & _ & _ & _ & Hin & _) _].
  exists r1, h1, r2, h2. repeat split; try assumption. congruence.
Defined.

Lemma humidity_is_truncated_witness :
  parseInt "45.7" = Number_of_Z 45
  /\ parseFloat "45.7" = Number_of_decimal 457 (-1).
Proof.
  destruct (humidity_is_truncated epoch [] empty_chart)
    as (_ & Hparse & _).
  assert (Hip : DecimalDigits "45") by (split; [discriminate|reflexivity]).
  assert (Hfp : allDigits "7" = true) by reflexivity.
  pose proof (Hparse "45"%string "7"%string Hip Hfp) as [Hf Hi].
  split; [exact Hi|exact Hf].
Defined.

Lemma up_down_script :
  reachable up = true /\ Forall (fun ex => reachable ex = false) (repeat down 9)
  /\ Forall (fun ex => reachable ex = false) (repeat down 10).
Proof. repeat constructor. Defined.

(** [fresh] is the page of a session: loaded, and idle for three
    seconds. *)
Lemma fresh_loaded (net : list Exchange) :
  session net [Idle 3000] = Some (fresh net).
Proof. reflexivity. Qed.

Lemma restart_polls_ten_times_witness :
  (exists w',
     restartHandler (fresh (up :: repeat down 9 ++ up :: [down]))
     = Some (Returned tt, w')
     /\ now w' = 51220%N /\ display w' = true
     /\ message w' = "<p>Welcome to WetSpec.</p>"%string
     /\ network w' = [down])
  /\ (exists w',
        restartHandler (fresh (up :: repeat down 10 ++ [up]))
        = Some (Returned tt, w')
        /\ now w' = 51220%N /\ display w' = false
        /\ message w' = paragraph fatalMessage
        /\ network w' = [up]).
Proof.
  destruct up_down_script as (Hup & H9 & H10). split.
  - destruct (restart_polls_ten_times
                (fresh (up :: repeat down 9 ++ up :: [down])) up
                (repeat down 9) [down] Hup H9) as [Hok _].
    destruct (Hok up ltac:(simpl; lia) eq_refl eq_refl)
      as (w' & Hrun & _ & Hnow & Hd & Hm & _ & Hn).
    exists w'. split; [exact Hrun|]. split; [rewrite Hnow; reflexivity|].
    repeat split; assumption.
  - destruct (restart_polls_ten_times
                (fresh (up :: repeat down 10 ++ [up])) up
                (repeat down 10) [up] Hup H10) as [_ Hfail].
    destruct (Hfail eq_refl eq_refl)
      as (w' & Hrun & _ & Hnow & Hd & Hm & _ & Hn & _).
    exists w'. split; [exact Hrun|]. split; [rewrite Hnow; reflexivity|].
    repeat split; assumption.
Defined.



(** ** More about the smoother *)

Lemma sma_loop_split (dataset : list Datum) (point : nat) :
  forall (a b i : nat) (sum : float),
    Dashboard.sma_loop dataset point i (a + b) sum
    = match Dashboard.sma_loop dataset point i a sum with
      | Some sum' => Dashboard.sma_loop dataset point (i + a) b sum'
      | None => None
      end.
Proof.
  induction a as [|a IH]; intros b i sum; simpl.
  - now rewrite Nat.add_0_r.
  - destruct (get dataset _) as [d|]; simpl; [|reflexivity].
    rewrite IH. now replace (S i + a)%nat with (i + S a)%nat by lia.
Qed.

(** X1. [simpleMovingAverage] raises exactly when its window leaves the
    array: with a positive number of points, when [point] is past the end
    or more points are asked for than there are up to [point].  With no
    points at all it reads nothing and returns 0/0, which is NaN. *)
Theorem simpleMovingAverage_raises (dataset : list Datum) (point n : nat) :
  Dashboard.simpleMovingAverage dataset point 0 = Some nan
  /\ ((0 < n)%nat ->
      (Dashboard.simpleMovingAverage dataset point n = None
       <-> (length dataset <= point)%nat \/ (S point < n)%nat)).
Proof.
  split; [reflexivity|]. intros Hn. split.
  - intros Hnone.
    destruct (Nat.le_gt_cases (length dataset) point) as [|Hpt]; [now left|].
    destruct (Nat.le_gt_cases n (S point)) as [Hle|]; [|now right].
    rewrite simpleMovingAverage_mean in Hnone by lia. discriminate.
  - intros [Hpt|Hwin]; unfold Dashboard.simpleMovingAverage.
    + destruct n as [|n]; [lia|]. simpl.
      rewrite Z.sub_0_r, get_of_nat, (lookup_ge_None_2 _ _ Hpt). reflexivity.
    + destruct (Nat.le_gt_cases (length dataset) point) as [Hpt|Hpt].
      * destruct n as [|n]; [lia|]. simpl.
        rewrite Z.sub_0_r, get_of_nat, (lookup_ge_None_2 _ _ Hpt).
        reflexivity.
      * replace n with (S point + (n - S point))%nat by lia.
        rewrite sma_loop_split.
        rewrite (sma_loop_values dataset point (S point) 0 _ Hpt) by lia.
        destruct (n - S point)%nat as [|m] eqn:Hm; [lia|]. simpl.
        unfold get.
        destruct (Z.ltb_spec (Z.of_nat point - Z.of_nat (S point)) 0);
          [reflexivity|lia].
Qed.

Lemma values_back_take (series : list Datum) (n first last : nat) :
  (last < n)%nat ->
  values_back (take n series) first last = values_back series first last.
Proof.
  intros Hlast. unfold values_back. do 2 f_equal.
  apply list_eq. intros i.
  destruct (Nat.lt_ge_cases i (S last - first)) as [Hi|Hi].
  - rewrite !lookup_take_lt, !lookup_drop by lia.
    now rewrite lookup_take_lt by lia.
  - now rewrite !lookup_take_ge by lia.
Qed.

Lemma smoothed_at_take (series : list Datum) (n i : nat) (d : Datum) :
  (i < n)%nat ->
  smoothed_at (take n series) i d = smoothed_at series i d.
Proof.
  intros Hi. unfold smoothed_at. now rewrite !values_back_take by lia.
Qed.

(** X2. The smoother is causal: the smoothed series of a series that has
    grown by further samples starts with the smoothed series it had
    before.  New samples never change a point already smoothed. *)
Theorem smooth_appended (series more : list Datum) :
  exists out out',
    Dashboard.calculateSMADataset series = Some out
    /\ Dashboard.calculateSMADataset (series ++ more) = Some out'
    /\ out = take (length series) out'.
Proof.
  exists (imap (smoothed_at series) series),
         (imap (smoothed_at (series ++ more)) (series ++ more)).
  split; [apply calculateSMADataset_imap|].
  split; [apply calculateSMADataset_imap|].
  apply list_eq. intros i.
  destruct (Nat.lt_ge_cases i (length series)) as [Hi|Hi].
  - rewrite lookup_take_lt, !list_lookup_imap by lia.
    rewrite (lookup_app_l series more) by lia.
    destruct (series !! i) as [d|]; [simpl|reflexivity]. f_equal.
    rewrite <- (smoothed_at_take (series ++ more) (length series)) by lia.
    now rewrite take_app_length.
  - rewrite lookup_take_ge by lia.
    apply lookup_ge_None_2. now rewrite length_imap.
Qed.

Lemma values_back_ext (s s' : list Datum) (first last : nat) :
  (forall k, (first <= k <= last)%nat -> s !! k = s' !! k) ->
  values_back s first last = values_back s' first last.
Proof.
  intros Hsame. unfold values_back. do 2 f_equal.
  apply list_eq. intros k.
  destruct (Nat.lt_ge_cases k (S last - first)) as [Hk|Hk].
  - rewrite !lookup_take_lt, !lookup_drop by lia. apply Hsame. lia.
  - now rewrite !lookup_take_ge by lia.
Qed.

(** X3. A smoothed point depends on the raw points of its window and on no
    other.  Two series that differ at one position [i] only have the same
    smoothed point wherever [i] is outside the window: before [i], more
    than eleven positions after it, and, when [i] is 0, everywhere else,
    since the first sample is never averaged. *)
Theorem smooth_local (s s' : list Datum) (i : nat) :
  length s = length s' ->
  (forall k, k <> i -> s !! k = s' !! k) ->
  exists out out',
    Dashboard.calculateSMADataset s = Some out
    /\ Dashboard.calculateSMADataset s' = Some out'
    /\ (forall j, ~ in_window i j -> out !! j = out' !! j)
    /\ (forall j, (j < i \/ i + 11 < j \/ (i = 0 /\ 1 <= j))%nat ->
                  out !! j = out' !! j).
Proof.
  intros Hlen Hsame.
  exists (imap (smoothed_at s) s), (imap (smoothed_at s') s').
  split; [apply calculateSMADataset_imap|].
  split; [apply calculateSMADataset_imap|].
  assert (Hlocal : forall j, ~ in_window i j ->
            imap (smoothed_at s) s !! j = imap (smoothed_at s') s' !! j).
  { intros j Hout. unfold in_window in Hout.
    rewrite !list_lookup_imap.
    assert (Hji : j <> i).
    { intros ->. apply Hout. destruct i as [|i]; [now left|].
      destruct (Nat.lt_ge_cases (S i) 12); [right; left|right; right]; lia. }
    rewrite <- (Hsame j Hji).
    destruct (s !! j) as [d|]; [simpl|reflexivity]. f_equal.
    unfold smoothed_at.
    destruct (Nat.eqb_spec j 0) as [|Hj0]; [reflexivity|].
    destruct (Nat.ltb_spec j 12) as [Hj|Hj]; do 2 f_equal;
      apply values_back_ext; intros k Hk; apply Hsame; intros ->;
      apply Hout; [right; left|right; right]; lia. }
  split; [exact Hlocal|].
  intros j Hj. apply Hlocal. unfold in_window. lia.
Qed.

(** ** More about the gap segmenter *)

Import More.

Lemma findBreaks_cons2 (a b : Datum) (l : list Datum) :
  findBreaks (a :: b :: l)
  = (if long_gap (a, b) then [break_of (a, b)] else []) ++ findBreaks (b :: l).
Proof.
  unfold findBreaks, adjacent_pairs. simpl. rewrite drop_0.
  now destruct (long_gap (a, b)).
Qed.

Lemma increasing_cons2 (a b : Datum) (l : list Datum) :
  Spec.increasing (a :: b :: l) <->
  timeOf a < timeOf b /\ Spec.increasing (b :: l).
Proof.
  unfold Spec.increasing, adjacent_pairs. simpl. rewrite drop_0.
  rewrite Forall_cons. reflexivity.
Qed.

Lemma increasing_head (l : list Datum) :
  forall a, Spec.increasing (a :: l) ->
            Forall (fun d => timeOf a < timeOf d) l.
Proof.
  induction l as [|b l IH]; intros a Hinc; [constructor|].
  apply increasing_cons2 in Hinc as [Hab Hinc].
  constructor; [exact Hab|].
  eapply Forall_impl; [exact (IH b Hinc)|]. simpl. intros d Hd. lia.
Qed.

(** Every break starts three intervals after some point of the series,
    hence no earlier than three intervals after the first. *)
Lemma breaks_start_after (l : list Datum) :
  forall a, Spec.increasing (a :: l) ->
    Forall (fun bk => timeOf a + 3 * interval_ms <= breakStart bk)
           (findBreaks (a :: l)).
Proof.
  induction l as [|b l IH]; intros a Hinc; [constructor|].
  rewrite findBreaks_cons2.
  apply increasing_cons2 in Hinc as [Hab Hinc].
  apply Forall_app. split.
  - destruct (long_gap (a, b)); repeat constructor.
    unfold breakStart, break_of, timeOf, interval_ms. simpl. lia.
  - eapply Forall_impl; [exact (IH b Hinc)|]. simpl. intros bk Hbk. lia.
Qed.

(** X4. The segmenter returns at most one break fewer than there are
    points, and none exactly when no two adjacent points are more than ten
    sample intervals apart. *)
Theorem getXBreaks_none_iff (series : list Datum) :
  exists bs,
    Dashboard.getXBreaks series = Some bs
    /\ (length bs <= length series - 1)%nat
    /\ (bs = [] <->
        Forall (fun p => timeOf p.2 - timeOf p.1 <= 10 * interval_ms)
               (adjacent_pairs series)).
Proof.
  exists (findBreaks series). split; [apply getXBreaks_findBreaks|].
  unfold findBreaks. split.
  - rewrite length_map.
    etransitivity; [apply List.filter_length_le|].
    unfold adjacent_pairs. rewrite length_zip_with, length_drop. lia.
  - induction (adjacent_pairs series) as [|p l IH]; simpl.
    + split; [constructor|reflexivity].
    + rewrite Forall_cons. unfold long_gap at 1.
      fold interval_ms. fold (timeOf p.2). fold (timeOf p.1).
      destruct (Z.ltb_spec (10 * interval_ms) (timeOf p.2 - timeOf p.1)).
      * split; [discriminate|lia].
      * rewrite IH. split; [now split|now intros [_ H']].
Qed.

(** X5. On a series increasing by timestamp every break is more than four
    sample intervals long, and every point of the series is at least
    three intervals before its start or at least three intervals after its
    end: a break never covers a sample. *)
Theorem breaks_cover_no_point (series : list Datum) :
  Spec.increasing series ->
  exists bs,
    Dashboard.getXBreaks series = Some bs
    /\ forall bk d,
         bk ∈ bs -> d ∈ series ->
         breakStart bk + 4 * interval_ms < breakEnd bk
         /\ (timeOf d + 3 * interval_ms <= breakStart bk
             \/ breakEnd bk + 3 * interval_ms <= timeOf d).
Proof.
  intros Hinc. exists (findBreaks series).
  split; [apply getXBreaks_findBreaks|].
  induction series as [|a [|b l] IH]; intros bk d Hbk Hd.
  - now apply elem_of_nil in Hbk.
  - now apply elem_of_nil in Hbk.
  - rewrite findBreaks_cons2 in Hbk.
    apply increasing_cons2 in Hinc as [Hab Hinc].
    pose proof (increasing_head _ _ Hinc) as Hafter.
    pose proof (breaks_start_after _ _ Hinc) as Hstart.
    rewrite Forall_forall in Hafter.
    rewrite Forall_forall in Hstart.
    apply elem_of_app in Hbk as [Hbk|Hbk].
    + destruct (long_gap (a, b)) eqn:Hgap; [|now apply elem_of_nil in Hbk].
      apply list_elem_of_singleton in Hbk as ->.
      unfold long_gap in Hgap. apply Z.ltb_lt in Hgap. simpl in Hgap.
      unfold breakStart, breakEnd, break_of, interval_ms, timeOf in *.
      simpl. split; [lia|].
      apply elem_of_cons in Hd as [->|Hd]; [left; lia|right].
      apply elem_of_cons in Hd as [->|Hd]; [lia|].
      specialize (Hafter d Hd). simpl in Hafter. lia.
    + apply elem_of_cons in Hd as [->|Hd].
      * specialize (Hstart bk Hbk). simpl in Hstart.
        destruct (IH Hinc bk b Hbk ltac:(left)) as [Hlen _].
        split; [exact Hlen|left]. unfold timeOf in *. lia.
      * exact (IH Hinc bk d Hbk Hd).
Qed.

(** X6. On a series increasing by timestamp the breaks come in time order
    and never overlap: each ends at least six sample intervals before any
    later one starts. *)
Theorem breaks_in_order (series : list Datum) :
  Spec.increasing series ->
  exists bs,
    Dashboard.getXBreaks series = Some bs
    /\ StronglySorted
         (fun b1 b2 => breakEnd b1 + 6 * interval_ms <= breakStart b2) bs.
Proof.
  intros Hinc. exists (findBreaks series).
  split; [apply getXBreaks_findBreaks|].
  induction series as [|a [|b l] IH]; [constructor|constructor|].
  rewrite findBreaks_cons2.
  apply increasing_cons2 in Hinc as [Hab Hinc].
  destruct (long_gap (a, b)); simpl; [|exact (IH Hinc)].
  constructor; [exact (IH Hinc)|].
  pose proof (breaks_start_after _ _ Hinc) as Hstart.
  apply Forall_forall.
  rewrite Forall_forall in Hstart.
  intros bk Hbk. specialize (Hstart bk Hbk). simpl in Hstart.
  unfold breakEnd, break_of, timeOf, interval_ms in *. simpl. lia.
Qed.

(** X7. The segmenter is causal: the breaks of a series that has grown by
    further samples start with the breaks it had before. *)
Theorem breaks_appended (series more : list Datum) :
  exists bs later,
    Dashboard.getXBreaks series = Some bs
    /\ Dashboard.getXBreaks (series ++ more) = Some (bs ++ later).
Proof.
  exists (findBreaks series).
  assert (H : exists later,
            findBreaks (series ++ more) = findBreaks series ++ later).
  { induction series as [|a [|b l] IH].
    - now exists (findBreaks more).
    - now exists (findBreaks (a :: more)).
    - destruct IH as [later IH].
      exists later. change ((a :: b :: l) ++ more) with (a :: b :: (l ++ more)).
      rewrite !findBreaks_cons2. change (b :: l ++ more) with ((b :: l) ++ more).
      now rewrite IH, app_assoc. }
  destruct H as [later H]. exists later.
  now rewrite !getXBreaks_findBreaks, H.
Qed.


(** ** More about the handlers *)


(** X9. The budget is tested by [n === 1] only: called with [n < 1],
    [fetchRetry] never gives up.  It cannot throw, and while the network
    fails it goes on trying, every five seconds, without end. *)
Theorem fetchRetry_without_budget (url : string) (n : Z) :
  n < 1 ->
  (forall w c w',
     fetchRetry url n w = Some (c, w') -> exists response, c = Returned response)
  /\ (forall w,
        Forall (fun ex => reachable ex = false) (network w) ->
        fetchRetry url n w = None).
Proof.
  intros Hn. split.
  - intros w c w'. unfold fetchRetry.
    generalize (S (length (network w))). intros fuel. revert n Hn w.
    induction fuel as [|fuel IH]; intros n Hn w Hrun; [discriminate|].
    simpl in Hrun. unfold try_catch in Hrun.
    destruct (fetch url w) as [[[r|err] w1]|] eqn:Hfetch; [| |discriminate].
    + injection Hrun as <- _. eauto.
    + destruct (Z.eqb_spec n 1); [lia|].
      destruct (sleep_waited 5000 w1) as (w2 & Hsleep & _).
      rewrite (bind_Returned _ _ w1 w2 tt Hsleep) in Hrun.
      apply (IH (n - 1) ltac:(lia) w2 Hrun).
  - intros w Hfails. unfold fetchRetry.
    apply (fetchRetry_fuel_stuck url (network w)); [reflexivity|exact Hfails|lia].
Qed.

(** The page after the event loop has been idle. *)
Lemma advance_page (ms : N) (w : World) :
  now (advance ms w) = (now w + ms)%N
  /\ display (advance ms w) = display w
  /\ message (advance ms w)
     = (if existsb (fun p => (p.1 <=? now w + ms)%N) (pending w)
        then ""%string else message w)
  /\ pending (advance ms w)
     = List.filter (fun p => (now w + ms <? p.1)%N) (pending w)
  /\ timers (advance ms w) = map (next_due (now w + ms)) (timers w)
  /\ network (advance ms w) = network w.
Proof.
  destruct (advance_waited ms [] w w eq_refl eq_refl eq_refl eq_refl eq_refl)
    as [[Hn Ht Hp Hd Hm _ _] Hnet]; [now rewrite app_nil_r|constructor|].
  rewrite Hn in Ht, Hp, Hm. now repeat split.
Qed.

Lemma existsb_due_elem (t e : N) (k : Continuation)
    (ps : list (N * Continuation)) :
  (e, k) ∈ ps -> (e <= t)%N ->
  existsb (fun p => (p.1 <=? t)%N) ps = true.
Proof.
  intros Hin He. apply existsb_exists. exists (e, k).
  split; [now apply list_elem_of_In|now apply N.leb_le].
Qed.

(** X10. However the restart handler ends, it ends in one of three ways.
    If the command is not answered it throws, having done nothing but
    send it.  If it is answered the handler never throws: either one of
    the first ten polls is answered and the dashboard is shown under the
    server's welcome, which is left to be cleared three seconds later,
    with the exchanges up to that poll taken and no more, or the first ten
    polls all fail and the dashboard stays hidden under the fatal message,
    with just those ten taken. *)
Theorem restartHandler_outcomes (w : World) (c : Completion unit)
    (w' : World) :
  restartHandler w = Some (c, w') ->
  exists ack net,
    network w = ack :: net
    /\ ((reachable ack = false
         /\ c = Threw "TypeError: Failed to fetch"
         /\ effects w' = effects w ++ [Fetch "restart" false]
         /\ display w' = display w
         /\ network w' = net)
        \/ (reachable ack = true
            /\ c = Returned tt
            /\ ((exists k ok,
                   (k < 10)%nat
                   /\ Forall (fun ex => reachable ex = false) (take k net)
                   /\ net !! k = Some ok /\ reachable ok = true
                   /\ display w' = true
                   /\ message w' = "<p>Welcome to WetSpec.</p>"%string
                   /\ ((now w' + 3000)%N, showDashboard_rest) ∈ pending w'
                   /\ network w' = drop (S k) net)
                \/ ((10 <= length net)%nat
                    /\ Forall (fun ex => reachable ex = false) (take 10 net)
                    /\ display w' = false
                    /\ message w' = paragraph fatalMessage
                    /\ network w' = drop 10 net)))).
Proof.
  intros Hrun. destruct (network w) as [|ack net] eqn:Hnet.
  { unfold restartHandler, mbind, Async_bind, bind in Hrun.
    now rewrite (fetch_stuck "restart" w Hnet) in Hrun. }
  exists ack, net. split; [reflexivity|].
  destruct (restartHandler_cases w ack net Hnet)
    as [(Hack & w1 & Hrun1 & Hw1 & Hnet1)
       |(Hack & [(fails & ok & rest & w4 & w1 & -> & Hf & Hok & Hlen & Hrun1
                  & Hw4 & Hnet4 & Hlast)
                |[(fails & rest & w4 & w1 & -> & Hf & Hlen & Hrun1
                   & Hw4 & Hnet4 & Hlast)
                 |(_ & _ & Hnone)]])];
    [| | |congruence];
    rewrite Hrun1 in Hrun; injection Hrun as <- <-.
  - left. split; [exact Hack|]. split; [reflexivity|].
    split; [exact (waited_effects _ _ _ _ Hw1)|].
    split; [exact (waited_display _ _ _ _ Hw1)|exact Hnet1].
  - right. split; [exact Hack|]. split; [reflexivity|]. left.
    destruct (showDashboard_fields (Server.body "test") w4)
      as (w5 & Hshow5 & Hn & Ht & Hp & Hd & Hm & Hnet5 & Htr).
    rewrite Hlast in Hshow5. injection Hshow5 as <-.
    exists (length fails), ok. split; [exact Hlen|].
    split; [now rewrite take_app_length|].
    split; [now rewrite list_lookup_middle|]. split; [exact Hok|].
    split; [exact Hd|]. split; [exact Hm|]. split.
    + rewrite Hp, Hn. apply elem_of_app. right. apply list_elem_of_here.
    + rewrite Hnet5, Hnet4. change (ok :: rest) with ([ok] ++ rest).
      rewrite app_assoc. symmetry. apply drop_app_length'.
      rewrite length_app. simpl. lia.
  - right. split; [exact Hack|]. split; [reflexivity|]. right.
    destruct (hideDashboard_fields fatalMessage w4)
      as (w5 & Hfatal5 & Hn & Ht & Hp & Hd & Hm & Hnet5 & Htr).
    rewrite Hlast in Hfatal5. injection Hfatal5 as <-.
    rewrite <- Hlen. split; [rewrite length_app; lia|].
    split; [now rewrite take_app_length|].
    split; [exact Hd|]. split; [exact Hm|].
    now rewrite Hnet5, Hnet4, drop_app_length.
Qed.

Lemma spawned_app (a b : list Event) : spawned (a ++ b) = spawned a ++ spawned b.
Proof. unfold spawned. apply omap_app. Qed.

Lemma spawned_retries (k : nat) : spawned (retries "test" k) = [].
Proof. induction k as [|k IH]; [reflexivity|exact IH]. Qed.

(** X11. A click costs the device at most one command.  However the
    restart handler ends, the server has spawned one reboot if the command
    was answered and nothing otherwise: the polls that follow, few or
    many, spawn nothing.  The shutdown handler likewise spawns one halt or
    nothing. *)
Theorem one_command_per_click (w : World) (c : Completion unit)
    (w' : World) :
  (restartHandler w = Some (c, w') ->
   spawned (effects w')
   = spawned (effects w)
     ++ match network w with
        | ack :: _ => if reachable ack then [Server.Reboot] else []
        | [] => []
        end)
  /\ (shutdownHandler w = Some (c, w') ->
      spawned (effects w')
      = spawned (effects w)
        ++ match network w with
           | ack :: _ => if reachable ack then [Server.Halt] else []
           | [] => []
           end).
Proof.
  split; intros Hrun; destruct (network w) as [|ack net] eqn:Hnet.
  - unfold restartHandler, mbind, Async_bind, bind in Hrun.
    now rewrite (fetch_stuck "restart" w Hnet) in Hrun.
  - destruct (restartHandler_cases w ack net Hnet)
      as [(Hack & w1 & Hrun1 & Hw1 & _)
         |(Hack & [(fails & ok & rest & w4 & w1 & _ & _ & _ & _ & Hrun1
                    & Hw4 & _ & Hlast)
                  |[(fails & rest & w4 & w1 & _ & _ & _ & Hrun1
                     & Hw4 & _ & Hlast)
                   |(_ & _ & Hnone)]])];
      [| | |congruence];
      rewrite Hrun1 in Hrun; injection Hrun as <- <-; rewrite Hack.
    + rewrite (waited_effects _ _ _ _ Hw1), spawned_app. reflexivity.
    + destruct (showDashboard_fields (Server.body "test") w4)
        as (w5 & Hshow5 & _ & _ & _ & _ & _ & _ & Htr).
      rewrite Hlast in Hshow5. injection Hshow5 as <-.
      rewrite (effects_trace _ _ _ Htr), (hidden_effects _ _ _ _ _ Hw4).
      rewrite !spawned_app, spawned_retries, <- app_assoc. reflexivity.
    + destruct (hideDashboard_fields fatalMessage w4)
        as (w5 & Hfatal5 & _ & _ & _ & _ & _ & _ & Htr).
      rewrite Hlast in Hfatal5. injection Hfatal5 as <-.
      rewrite (effects_trace _ _ _ Htr), (hidden_effects _ _ _ _ _ Hw4).
      rewrite !spawned_app, spawned_retries, <- app_assoc. reflexivity.
  - unfold shutdownHandler, mbind, Async_bind, bind in Hrun.
    now rewrite (fetch_stuck "shutdown" w Hnet) in Hrun.
  - destruct (fetch_waited "shutdown" ack net w Hnet)
      as (w1 & Hfetch & Hw1 & _).
    unfold shutdownHandler in Hrun. destruct (reachable ack) eqn:Hack.
    + rewrite (bind_Returned _ _ w w1 _ Hfetch) in Hrun.
      destruct (hideDashboard_fields (Server.body "shutdown") w1)
        as (w2 & Hhide & _ & _ & _ & _ & _ & _ & Htr).
      simpl in Hrun. rewrite Hhide in Hrun. injection Hrun as <- <-.
      rewrite (effects_trace _ _ _ Htr), (waited_effects _ _ _ _ Hw1).
      rewrite !spawned_app, <- app_assoc. reflexivity.
    + rewrite (bind_Threw _ _ w w1 _ Hfetch) in Hrun.
      injection Hrun as <- <-.
      rewrite (waited_effects _ _ _ _ Hw1), spawned_app. reflexivity.
Qed.

(** ** More about a refresh *)

Lemma findBreaks_times (s s' : list Datum) :
  map x s = map x s' -> findBreaks s = findBreaks s'.
Proof.
  revert s'. induction s as [|a [|b l] IH]; intros [|a' [|b' l']] Hx;
    try discriminate; try reflexivity.
  rewrite !findBreaks_cons2.
  injection Hx as Ha Hb Hl.
  rewrite (IH (b' :: l')) by (simpl; congruence).
  unfold long_gap, break_of. simpl. now rewrite Ha, Hb.
Qed.

(** X13. The segmenter reads the timestamps only: two series with the same
    timestamps have the same breaks, whatever their values, NaN
    included. *)
Theorem getXBreaks_reads_times (series series' : list Datum) :
  map x series = map x series' ->
  Dashboard.getXBreaks series = Dashboard.getXBreaks series'.
Proof.
  intros Hx. rewrite !getXBreaks_findBreaks. f_equal.
  now apply findBreaks_times.
Qed.

Lemma map_x_rawTemperature (D : string -> Date) (data : list Reading) :
  map x (rawTemperature D data) = map (fun value => D (time value)) data.
Proof. unfold rawTemperature. now rewrite List.map_map. Qed.

Lemma map_x_rawHumidity (D : string -> Date) (data : list Reading) :
  map x (rawHumidity D data) = map (fun value => D (time value)) data.
Proof. unfold rawHumidity. now rewrite List.map_map. Qed.

(** X14. What a refresh hands to the chart is aligned: the two raw series
    and the two smoothed series have one point per record, with the
    record's date at the same position in all four.  The breaks, taken
    from the temperature series, are the ones the humidity series would
    have given. *)
Theorem refresh_series_aligned (D : string -> Date) (data : list Reading)
    (chart : Chart) :
  exists breaks tempData humidityData tempSMA humiditySMA,
    updateChart_callback D data chart
    = Some (mkChart (Some breaks) (Some tempData) (Some humidityData)
                    (Some tempSMA) (Some humiditySMA) (S (renders chart)))
    /\ map x tempData = map (fun value => D (time value)) data
    /\ map x humidityData = map (fun value => D (time value)) data
    /\ map x tempSMA = map (fun value => D (time value)) data
    /\ map x humiditySMA = map (fun value => D (time value)) data
    /\ Dashboard.getXBreaks humidityData = Some breaks.
Proof.
  exists (findBreaks (rawTemperature D data)), (rawTemperature D data),
         (rawHumidity D data),
         (imap (smoothed_at (rawTemperature D data)) (rawTemperature D data)),
         (imap (smoothed_at (rawHumidity D data)) (rawHumidity D data)).
  split; [apply updateChart_callback_closed|].
  pose proof (map_x_rawTemperature D data) as Ht.
  pose proof (map_x_rawHumidity D data) as Hh.
  repeat split; try assumption.
  - rewrite <- Ht.
    apply (map_x_imap_smoothed _ (rawTemperature D data) (fun k => k)).
  - rewrite <- Hh.
    apply (map_x_imap_smoothed _ (rawHumidity D data) (fun k => k)).
  - rewrite getXBreaks_findBreaks. f_equal.
    apply findBreaks_times. congruence.
Qed.

(** ** The legend *)

Lemma itemclick_data (k : nat) (chart : Legend.LegendChart)
    (s : Legend.DataSeries) :
  Legend.data chart !! k = Some s ->
  Legend.itemclick k chart
  = Legend.mkLegendChart
      (<[k := Legend.mkDataSeries (Legend.name s)
                (Some (negb (Legend.displayed s)))]> (Legend.data chart))
      (S (Legend.rendered chart)).
Proof.
  intros Hs. unfold Legend.itemclick. rewrite Hs.
  now destruct (Legend.displayed s).
Qed.

(** X15. A click on a legend entry turns that series off if it is on
    display, undefined visibility counting as on, and on if it is not; it
    leaves the other series alone and renders the chart once.  Two clicks
    on the same entry put every series back on display or off as it was,
    and clicks on different entries can be made in either order. *)
Theorem legend_click (k : nat) (chart : Legend.LegendChart)
    (s : Legend.DataSeries) :
  Legend.data chart !! k = Some s ->
  (map Legend.displayed (Legend.data (Legend.itemclick k chart))
   = <[k := negb (Legend.displayed s)]>
       (map Legend.displayed (Legend.data chart))
   /\ map Legend.name (Legend.data (Legend.itemclick k chart))
      = map Legend.name (Legend.data chart)
   /\ Legend.rendered (Legend.itemclick k chart)
      = S (Legend.rendered chart))
  /\ (map Legend.displayed
          (Legend.data (Legend.itemclick k (Legend.itemclick k chart)))
      = map Legend.displayed (Legend.data chart)
      /\ Legend.rendered (Legend.itemclick k (Legend.itemclick k chart))
         = S (S (Legend.rendered chart)))
  /\ (forall j, j <> k ->
        Legend.itemclick j (Legend.itemclick k chart)
        = Legend.itemclick k (Legend.itemclick j chart)).
Proof.
  intros Hs. apply lookup_lt_Some in Hs as Hk.
  pose proof (itemclick_data k chart s Hs) as H1.
  assert (Hmap : forall (A : Type) (f : Legend.DataSeries -> A) l s',
            map f (<[k := s']> l) = <[k := f s']> (map f l)).
  { intros A f l s'. change map with (@fmap list _). apply list_fmap_insert. }
  split; [|split].
  - rewrite H1. simpl. rewrite !Hmap. simpl. repeat split.
    apply list_insert_id. change map with (@fmap list _).
    now rewrite list_lookup_fmap, Hs.
  - rewrite (itemclick_data k (Legend.itemclick k chart)
               (Legend.mkDataSeries (Legend.name s)
                  (Some (negb (Legend.displayed s))))).
    + rewrite H1. simpl. rewrite list_insert_insert_eq, Hmap. simpl.
      split; [|reflexivity].
      replace (Legend.displayed
                 (Legend.mkDataSeries (Legend.name s)
                    (Some (negb (Legend.displayed s)))))
        with (negb (Legend.displayed s)) by reflexivity.
      rewrite negb_involutive. apply list_insert_id.
      change map with (@fmap list _). now rewrite list_lookup_fmap, Hs.
    + rewrite H1. simpl. now apply list_lookup_insert_eq.
  - intros j Hj. destruct (Legend.data chart !! j) as [sj|] eqn:Hsj.
    + pose proof (itemclick_data j chart sj Hsj) as H2.
      rewrite (itemclick_data j (Legend.itemclick k chart) sj),
        (itemclick_data k (Legend.itemclick j chart) s).
      * rewrite H1, H2. simpl. f_equal. apply list_insert_insert_ne.
        congruence.
      * rewrite H2. simpl. now rewrite list_lookup_insert_ne.
      * rewrite H1. simpl. now rewrite list_lookup_insert_ne by congruence.
    + assert (Hj1 : Legend.itemclick j chart = chart).
      { unfold Legend.itemclick. now rewrite Hsj. }
      rewrite Hj1. unfold Legend.itemclick at 1.
      rewrite H1 at 1. simpl.
      rewrite list_lookup_insert_ne by congruence. now rewrite Hsj.
Qed.

(** ** Which objects the smoother returns *)

Lemma heap_sma_loop_reads (dataset : ref) (point : nat) :
  forall (todo i : nat) (sum : float) (h h' : list Object) (v : float),
    Heap.sma_loop dataset point i todo sum h = Some (v, h') -> h' = h.
Proof.
  induction todo as [|todo IH]; intros i sum h h' v Hrun; simpl in Hrun.
  - now injection Hrun as _ <-.
  - unfold mbind, Mem_bind, elements, lift, fields in Hrun.
    destruct (h !! dataset) as [[| |elems]|]; try discriminate.
    destruct (get elems _) as [r|]; try discriminate.
    destruct (h !! r) as [[d| |]|]; try discriminate.
    exact (IH _ _ _ _ _ Hrun).
Qed.

Lemma heap_simpleMovingAverage_reads (dataset : ref) (point n : nat)
    (h h' : list Object) (v : float) :
  Heap.simpleMovingAverage dataset point n h = Some (v, h') -> h' = h.
Proof.
  unfold Heap.simpleMovingAverage, mbind, Mem_bind. intros Hrun.
  destruct (Heap.sma_loop dataset point 0 n 0 h) as [[sum h1]|] eqn:Hloop;
    [|discriminate].
  apply heap_sma_loop_reads in Hloop as ->. now injection Hrun as _ <-.
Qed.

(** One visit of the callback pushes one reference: at position 0 the
    reference it was given, elsewhere the address of an object it has just
    allocated.  No other object changes. *)
Lemma heap_sma_callback_pushes (dataset out r : ref) (k : nat)
    (hk h' : list Object) (refs : list ref) :
  Heap.sma_callback dataset out r k hk = Some (tt, h') ->
  hk !! out = Some (ArrayObject refs) ->
  exists r',
    h' !! out = Some (ArrayObject (refs ++ [r']))
    /\ (length hk <= length h')%nat
    /\ (forall q, q <> out -> (q < length hk)%nat -> h' !! q = hk !! q)
    /\ ((k = 0%nat /\ r' = r) \/ (k <> 0%nat /\ (length hk <= r')%nat)).
Proof.
  intros Hrun Hout. apply lookup_lt_Some in Hout as Hlt.
  assert (Hnew : forall n h1,
    (d0 ← fields r; v0 ← Heap.simpleMovingAverage dataset k n;
     o ← alloc (DatumObject (mkDatum (x d0) v0)); push out o) hk
    = Some (tt, h1) ->
    exists o, h1 = <[out := ArrayObject (refs ++ [length hk])]> (hk ++ [o])).
  { intros n h1 H. unfold mbind at 1, Mem_bind in H.
    destruct (fields r hk) as [[d0 hk1]|] eqn:Hf; [|discriminate].
    assert (hk1 = hk) as ->.
    { unfold fields in Hf. destruct (hk !! r) as [[| |]|]; congruence. }
    unfold mbind at 1, Mem_bind in H.
    destruct (Heap.simpleMovingAverage dataset k n hk) as [[v0 hk2]|] eqn:Hs;
      [|discriminate].
    apply heap_simpleMovingAverage_reads in Hs as ->.
    unfold mbind, Mem_bind, alloc, push in H.
    rewrite (lookup_app_l_Some _ _ _ _ Hout) in H.
    injection H as <-. eauto. }
  assert (Hgrown : forall o,
    let h1 := <[out := ArrayObject (refs ++ [length hk])]> (hk ++ [o]) in
    h1 !! out = Some (ArrayObject (refs ++ [length hk]))
    /\ (length hk <= length h1)%nat
    /\ (forall q, q <> out -> (q < length hk)%nat -> h1 !! q = hk !! q)).
  { intros o h1. subst h1. repeat split.
    - apply list_lookup_insert_eq. rewrite length_app. simpl. lia.
    - rewrite length_insert, length_app. lia.
    - intros q Hq Hqlt. rewrite list_lookup_insert_ne by congruence.
      now apply lookup_app_l. }
  unfold Heap.sma_callback in Hrun.
  destruct (Nat.eqb_spec k 0) as [->|Hk0].
  - unfold push in Hrun. rewrite Hout in Hrun. injection Hrun as <-.
    exists r. repeat split.
    + now apply list_lookup_insert_eq.
    + now rewrite length_insert.
    + intros q Hq _. now rewrite list_lookup_insert_ne by congruence.
    + now left.
  - exists (length hk).
    destruct (k <? 12)%nat;
      (destruct (Hnew _ _ Hrun) as [o ->];
       destruct (Hgrown o) as (H1 & H2 & H3);
       repeat split; [exact H1|exact H2|exact H3|right; split; [exact Hk0|lia]]).
Qed.

Lemma heap_sma_forEach_pushes (dataset out : ref) (elems : list ref)
    (fresh : nat) :
  out <> dataset ->
  forall (todo k : nat) (hk hf : list Object) (refs : list ref),
    Heap.forEach_from (Heap.sma_callback dataset out) dataset k todo hk
    = Some (tt, hf) ->
    hk !! out = Some (ArrayObject refs) ->
    hk !! dataset = Some (ArrayObject elems) ->
    (k + todo <= length elems)%nat ->
    (fresh <= length hk)%nat ->
    exists refs',
      hf !! out = Some (ArrayObject (refs ++ refs'))
      /\ length refs' = todo
      /\ forall j q, refs' !! j = Some q ->
           ((k + j = 0)%nat /\ elems !! 0%nat = Some q)
           \/ ((k + j <> 0)%nat /\ (fresh <= q)%nat).
Proof.
  intros Hne. induction todo as [|todo IH];
    intros k hk hf refs Hrun Hout Hdata Hlen Hfresh.
  - injection Hrun as <-. exists []. rewrite app_nil_r.
    repeat split; [exact Hout|]. intros j q Hj. discriminate.
  - simpl in Hrun. unfold mbind at 1, Mem_bind, elements in Hrun.
    rewrite Hdata in Hrun.
    destruct (lookup_lt_is_Some_2 elems k ltac:(lia)) as [r Hr].
    rewrite Hr in Hrun. unfold mbind at 1, Mem_bind in Hrun.
    destruct (Heap.sma_callback dataset out r k hk) as [[[] h1]|] eqn:Hcb;
      [|discriminate].
    destruct (heap_sma_callback_pushes _ _ _ _ _ _ _ Hcb Hout)
      as (r' & Hout1 & Hlen1 & Hsame & Hr').
    apply lookup_lt_Some in Hdata as Hdlt.
    destruct (IH (S k) h1 hf (refs ++ [r']) Hrun Hout1)
      as (refs' & Hfinal & Hcount & Hshape); [|lia|lia|].
    { rewrite Hsame; [exact Hdata|congruence|exact Hdlt]. }
    exists (r' :: refs'). split; [now rewrite <- app_assoc in Hfinal|].
    split; [simpl; lia|]. intros [|j] q Hj.
    + injection Hj as <-. rewrite Nat.add_0_r.
      destruct Hr' as [[-> ->]|[Hk0 Hge]]; [left|right]; split; auto; lia.
    + destruct (Hshape j q Hj) as [[H0 _]|[_ Hge]]; [lia|].
      right. split; lia.
Qed.

(** X16. The array the smoother returns is a new object, and so is each of
    its elements but the first: element 0 is the very object that is
    element 0 of the input, shared and not copied. *)
Theorem smooth_shares_first_point (h : list Object) (dataset : ref)
    (elems : list ref) (series : list Datum) :
  series_at h dataset = Some series ->
  array_at h dataset = Some elems ->
  exists r h' refs,
    Heap.calculateSMADataset dataset h = Some (r, h')
    /\ h !! r = None
    /\ array_at h' r = Some refs
    /\ length refs = length elems
    /\ refs !! 0%nat = elems !! 0%nat
    /\ forall j q, (1 <= j)%nat -> refs !! j = Some q -> h !! q = None.
Proof.
  intros Hs Harr. apply array_at_Some in Harr.
  destruct (heap_calculateSMADataset h dataset series Hs)
    as (r & h' & Hrun & _).
  pose proof Hrun as Hrun'.
  unfold Heap.calculateSMADataset in Hrun'.
  rewrite (bind_Some _ _ h (h ++ [ArrayObject []]) (length h) eq_refl)
    in Hrun'.
  unfold mbind at 1, Mem_bind in Hrun'.
  destruct (Heap.forEach dataset _ _) as [[[] hf]|] eqn:Hloop; [|discriminate].
  injection Hrun' as <- <-.
  unfold Heap.forEach in Hloop.
  assert (Hdata : (h ++ [ArrayObject []]) !! dataset
                  = Some (ArrayObject elems))
    by now apply lookup_app_l_Some.
  rewrite (bind_Some _ _ _ (h ++ [ArrayObject []]) elems) in Hloop
    by (unfold elements; now rewrite Hdata).
  apply lookup_lt_Some in Harr as Hlt.
  destruct (heap_sma_forEach_pushes dataset (length h) elems (S (length h))
              ltac:(lia) _ _ _ _ [] Hloop)
    as (refs & Hout & Hcount & Hshape).
  - rewrite lookup_app_r by lia. now rewrite Nat.sub_diag.
  - exact Hdata.
  - lia.
  - rewrite length_app. simpl. lia.
  - exists (length h), hf, refs. split; [exact Hrun|].
    split; [now apply lookup_ge_None_2|].
    split; [now apply array_at_Some|]. split; [exact Hcount|]. split.
    + destruct (refs !! 0%nat) as [q|] eqn:Hq.
      * destruct (Hshape 0%nat q Hq) as [[_ H0]|[H0 _]]; [now rewrite H0|lia].
      * apply lookup_ge_None in Hq. symmetry. apply lookup_ge_None. lia.
    + intros j q Hj Hq.
      destruct (Hshape j q Hq) as [[H0 _]|[_ Hge]]; [lia|].
      apply lookup_ge_None_2. lia.
Qed.


(** ** How long the handlers take *)

Lemma filter_all_due (t : N) (ps : list (N * Continuation)) :
  Forall (fun p => (p.1 <= t)%N) ps ->
  List.filter (fun p => (t <? p.1)%N) ps = [].
Proof.
  induction 1 as [|p ps Hp _ IH]; [reflexivity|]. simpl.
  now destruct (N.ltb_spec t p.1); [lia|].
Qed.

(** X17. How long a restart takes.  The handler is done when the
    dashboard is back: after the time the command takes, the settle delay
    of three seconds, the time each failed poll takes and five seconds
    after it, and the time the answered poll takes.  The welcome is on
    display then; three seconds later it is cleared, and if nothing older
    was left to clear the message it stays until then.  When ten polls
    fail the handler gives up 45 seconds of waiting after the settle delay,
    the time the polls took not counted. *)
Theorem restart_takes (w : World) (ack : Exchange)
    (fails rest : list Exchange) :
  reachable ack = true ->
  Forall (fun ex => reachable ex = false) fails ->
  (forall ok,
     (length fails < 10)%nat -> reachable ok = true ->
     network w = ack :: fails ++ ok :: rest ->
     exists w',
       restartHandler w = Some (Returned tt, w')
       /\ now w'
          = (now w + latency ack + 3000 + latencies fails
             + 5000 * N.of_nat (length fails) + latency ok)%N
       /\ (forall ms,
             (3000 <= ms)%N ->
             display (advance ms w') = true
             /\ message (advance ms w') = ""%string)
       /\ (Forall (fun p => (p.1 <= now w')%N) (pending w) ->
           forall ms,
             (ms < 3000)%N ->
             display (advance ms w') = true
             /\ message (advance ms w')
                = "<p>Welcome to WetSpec.</p>"%string))
  /\ (length fails = 10%nat ->
      network w = ack :: fails ++ rest ->
      exists w',
        restartHandler w = Some (Returned tt, w')
        /\ now w'
           = (now w + latency ack + 3000 + latencies fails + 45000)%N).
Proof.
  intros Hack Hfails. split.
  - intros ok Hlen Hok Hnet.
    destruct (restartHandler_reconnects ack ok fails rest w Hack Hfails Hlen
                Hok Hnet)
      as (w4 & w' & Hrun & [Hn4 Ht4 Hp4 Hd4 He4 _] & Hnet4 & Hshow).
    destruct (showDashboard_fields (Server.body "test") w4)
      as (w5 & Hshow5 & Hn & Ht & Hp & Hd & Hm & Hnet5 & Htr).
    rewrite Hshow in Hshow5. injection Hshow5 as <-.
    simpl in Hp, Hm. rewrite <- Hn in Hp.
    exists w'. split; [exact Hrun|]. split; [rewrite Hn, Hn4; lia|]. split.
    + intros ms Hms. destruct (advance_page ms w') as (_ & -> & -> & _).
      split; [exact Hd|].
      rewrite (existsb_due_elem _ (now w' + 3000)%N showDashboard_rest);
        [reflexivity| |lia].
      rewrite Hp. apply elem_of_app. right. apply list_elem_of_here.
    + intros Hold ms Hms. destruct (advance_page ms w') as (_ & -> & -> & _).
      split; [exact Hd|].
      rewrite Hp, Hp4, <- Hn, (filter_all_due _ _ Hold). simpl.
      destruct (N.leb_spec (now w' + 3000) (now w' + ms)); [lia|].
      exact Hm.
  - intros Hlen Hnet.
    destruct (restartHandler_gives_up ack fails rest w Hack Hfails Hlen Hnet)
      as (w4 & w' & Hrun & [Hn4 _ _ _ _ _] & _ & Hfatal).
    destruct (hideDashboard_fields fatalMessage w4) as (w5 & Hfatal5 & Hn & _).
    rewrite Hfatal in Hfatal5. injection Hfatal5 as <-.
    exists w'. split; [exact Hrun|]. rewrite Hn, Hn4. lia.
Qed.
(** X18. [simpleMovingAverage] within bounds: for a window of [n >= 1]
    points that ends at [point] and starts no earlier than position 0, it
    returns the mean of the [n] values at positions
    [point - n + 1 .. point]. *)
Theorem simpleMovingAverage_window (dataset : list Datum) (point n : nat) :
  (point < length dataset)%nat ->
  (1 <= n <= S point)%nat ->
  Dashboard.simpleMovingAverage dataset point n
  = Some (mean (values_back dataset (S point - n) point))
  /\ values_back dataset (S point - n) point
     = reverse (map y (take n (drop (S point - n) dataset)))
  /\ length (values_back dataset (S point - n) point) = n.
Proof.
  intros Hpt Hn.
  assert (Hv : values_back dataset (S point - n) point
               = reverse (map y (take n (drop (S point - n) dataset)))).
  { unfold values_back. now replace (S point - (S point - n))%nat with n by lia. }
  split; [apply simpleMovingAverage_mean; lia|]. split; [exact Hv|].
  rewrite Hv, length_reverse, length_map, length_take, length_drop. lia.
Qed.


(** X19. What a call of [showDashboard] does to the message.  The call
    takes no time; with a message it puts the message up, and three
    seconds later the message area is emptied, whatever it holds then:
    when [hideDashboard] has put a text of its own there in the meantime,
    that text is cleared, under the hidden dashboard.  With the empty
    string the call leaves the message area as it finds it, for good. *)
Theorem showDashboard_clears_any_message (note msg : string) (w : World) :
  exists w1,
    showDashboard msg w = Some (Returned tt, w1)
    /\ now w1 = now w
    /\ display w1 = true
    /\ message w1 = (if String.eqb msg "" then message w else paragraph msg)
    /\ pending w1
       = pending w ++ (if String.eqb msg "" then []
                       else [((now w + 3000)%N, showDashboard_rest)])
    /\ length (timers w1) = S (length (timers w))
    /\ (String.eqb msg "" = false ->
        forall ms,
          (ms < 3000)%N ->
          exists w2,
            hideDashboard note (advance ms w1) = Some (Returned tt, w2)
            /\ display w2 = false /\ message w2 = paragraph note
            /\ display (advance (3000 - ms) w2) = false
            /\ message (advance (3000 - ms) w2) = ""%string).
Proof.
  destruct (showDashboard_fields msg w)
    as (w1 & Hshow & Hn1 & Ht1 & Hp1 & Hd1 & Hm1 & _).
  exists w1. split; [exact Hshow|]. split; [exact Hn1|]. split; [exact Hd1|].
  split; [exact Hm1|]. split; [exact Hp1|].
  split; [rewrite Ht1, length_app; simpl; lia|].
  intros Hmsg ms Hms. rewrite Hmsg in Hp1.
  destruct (advance_page ms w1) as (Hn & _ & _ & Hp & _).
  destruct (hideDashboard_fields note (advance ms w1))
    as (w2 & Hhide & Hn2 & _ & Hp2 & Hd2 & Hm2 & _).
  exists w2. split; [exact Hhide|]. split; [exact Hd2|]. split; [exact Hm2|].
  destruct (advance_page (3000 - ms) w2) as (_ & -> & -> & _).
  split; [exact Hd2|].
  rewrite (existsb_due_elem _ (now w + 3000)%N showDashboard_rest);
    [reflexivity| |lia].
  rewrite Hp2, Hp, Hp1. apply list_elem_of_In, filter_In. split.
  - apply in_or_app. right. now left.
  - apply N.ltb_lt. simpl. lia.
Qed.

(** ** These theorems at concrete inputs *)

Lemma smooth_local_witness :
  exists out out',
    Dashboard.calculateSMADataset odd_series = Some out
    /\ Dashboard.calculateSMADataset odd_series_nan = Some out'
    /\ out !! 1%nat = out' !! 1%nat.
Proof.
  destruct (smooth_local odd_series odd_series_nan 0)
    as (out & out' & Hrun & Hrun' & _ & Hfar).
  - reflexivity.
  - intros k Hk. symmetry. apply list_lookup_insert_ne. congruence.
  - exists out, out'. split; [exact Hrun|]. split; [exact Hrun'|].
    apply Hfar. right. right. split; lia.
Defined.

Lemma gappy_increasing : Spec.increasing gappy_series.
Proof. repeat constructor. Defined.

Lemma breaks_cover_no_point_witness :
  exists bs,
    Dashboard.getXBreaks gappy_series = Some bs
    /\ forall bk d,
         bk ∈ bs -> d ∈ gappy_series ->
         breakStart bk + 4 * interval_ms < breakEnd bk
         /\ (timeOf d + 3 * interval_ms <= breakStart bk
             \/ breakEnd bk + 3 * interval_ms <= timeOf d).
Proof. exact (breaks_cover_no_point gappy_series gappy_increasing). Defined.

Lemma breaks_in_order_witness :
  exists bs,
    Dashboard.getXBreaks gappy_series = Some bs
    /\ StronglySorted
         (fun b1 b2 => breakEnd b1 + 6 * interval_ms <= breakStart b2) bs.
Proof. exact (breaks_in_order gappy_series gappy_increasing). Defined.


Lemma fetchRetry_without_budget_witness :
  fetchRetry "test" 0 (fresh (repeat down 12)) = None.
Proof.
  destruct (fetchRetry_without_budget "test" 0 ltac:(lia)) as [_ Hstuck].
  apply Hstuck. repeat constructor.
Defined.

Lemma restartHandler_outcomes_witness :
  exists c w',
    restartHandler (fresh [up; down; up; down]) = Some (c, w')
    /\ c = Returned tt /\ display w' = true
    /\ message w' = "<p>Welcome to WetSpec.</p>"%string
    /\ network w' = [down].
Proof.
  destruct (restartHandler (fresh [up; down; up; down]))
    as [[c w']|] eqn:Hrun; [|vm_compute in Hrun; discriminate].
  destruct (restartHandler_outcomes _ c w' Hrun)
    as (ack & net & Hnet & Hcases).
  simpl in Hnet. injection Hnet as <- <-.
  exists c, w'. split; [reflexivity|].
  destruct Hcases
    as [(Hack & _)
       |(_ & Hc & [(k & ok & Hk & Hfails & Hlook & Hok & Hd & Hm & _ & Hn)
                  |(Hlen & _)])].
  - discriminate Hack.
  - destruct k as [|[|k]].
    + simpl in Hlook. injection Hlook as <-. discriminate Hok.
    + simpl in Hn. repeat split; assumption.
    + simpl in Hfails. apply Forall_cons in Hfails as [_ Hfails].
      apply Forall_cons in Hfails as [Hup _]. discriminate Hup.
  - simpl in Hlen. lia.
Defined.

(** [welcoming] is the page of a session: loaded, and idle for one
    second. *)
Lemma welcoming_loaded (net : list Exchange) :
  session net [Idle 1000] = Some (welcoming net).
Proof. reflexivity. Qed.


Lemma getXBreaks_reads_times_witness :
  Dashboard.getXBreaks odd_series = Dashboard.getXBreaks odd_series_nan.
Proof. apply getXBreaks_reads_times. reflexivity. Defined.

Lemma legend_click_witness :
  map Legend.displayed
      (Legend.data (Legend.itemclick 0 (Legend.itemclick 0 Legend.configured)))
  = [false; false; true; true]
  /\ map Legend.displayed (Legend.data (Legend.itemclick 0 Legend.configured))
     = [true; false; true; true].
Proof.
  destruct (legend_click 0 Legend.configured
              (Legend.mkDataSeries "Temperature" (Some false)) eq_refl)
    as ((Hone & _) & (Htwo & _) & _).
  split; [exact Htwo|exact Hone].
Defined.

Lemma smooth_shares_first_point_witness :
  exists r h' refs,
    Heap.calculateSMADataset 3%nat small_store = Some (r, h')
    /\ array_at h' r = Some refs
    /\ refs !! 0%nat = Some 0%nat.
Proof.
  destruct (smooth_shares_first_point small_store 3 [0; 1; 2]%nat
              small_series eq_refl eq_refl)
    as (r & h' & refs & Hrun & _ & Harr & _ & Hfirst & _).
  exists r, h', refs. repeat split; assumption.
Defined.

Lemma restart_takes_witness :
  (exists w',
     restartHandler (fresh (up :: repeat down 9 ++ up :: [down]))
     = Some (Returned tt, w')
     /\ now w' = 51220%N
     /\ message (advance 2999 w') = "<p>Welcome to WetSpec.</p>"%string
     /\ message (advance 3000 w') = ""%string)
  /\ (exists w',
        restartHandler (fresh (up :: repeat down 10 ++ [up]))
        = Some (Returned tt, w')
        /\ now w' = 51220%N).
Proof.
  destruct up_down_script as (Hup & H9 & H10). split.
  - destruct (restart_takes (fresh (up :: repeat down 9 ++ up :: [down])) up
                (repeat down 9) [down] Hup H9) as [Hok _].
    destruct (Hok up ltac:(simpl; lia) eq_refl eq_refl)
      as (w' & Hrun & Hc & Hlate & Hearly).
    exists w'. split; [exact Hrun|]. split; [rewrite Hc; reflexivity|].
    split.
    + apply (Hearly ltac:(constructor) 2999%N). reflexivity.
    + apply (Hlate 3000%N). discriminate.
  - destruct (restart_takes (fresh (up :: repeat down 10 ++ [up])) up
                (repeat down 10) [up] Hup H10) as [_ Hfail].
    destruct (Hfail eq_refl eq_refl) as (w' & Hrun & Hc).
    exists w'. split; [exact Hrun|]. rewrite Hc. reflexivity.
Defined.

Lemma simpleMovingAverage_window_witness :
  Dashboard.simpleMovingAverage odd_series 4 3 = Some 7%float.
Proof.
  destruct (simpleMovingAverage_window odd_series 4 3 ltac:(simpl; lia)
              ltac:(lia)) as (Hrun & _).
  rewrite Hrun. vm_compute. reflexivity.
Defined.
